(** * Map contour mapper: the raster pipeline of [map_contour_mapper]

    A shallow embedding of [src/map_contour_mapper/__main__.py], of the
    zoom and level planning code of [src/app.py], and of the form handlers
    of [src/app_monetized.py] (bounding box validation, credits, payments).

    Numbers.  The tile decoder and the level planner only use [+ - * /],
    [floor] and [ceil]; they are embedded bit for bit on IEEE 754 numbers
    ([spec_float] of the standard library: binary32 for the NumPy [float32]
    arrays, binary64 for Python floats).  The projector calls [math.sin] and
    [math.log]; the projector, the crop window and the overlay mapper are
    embedded over the real numbers, with Python's exceptions (division by
    zero, logarithm of a non-positive number) kept explicit, and rounding
    left out.

    The outside world.  The tile list of [mercantile], the download of a
    tile, the answer of the Overpass server, [str.strip] and [float] on
    text, the renderer behind the web form and the payment service are
    parameters of the sections that use them. *)

From Stdlib Require Import String Ascii.
From Stdlib Require Import ZArith List Bool Lia QArith Qpower.
From Stdlib Require Import Reals Lra.
From Stdlib Require Import SpecFloat Permutation.
Import ListNotations.

Set Implicit Arguments.

(** ** Python exceptions as an error monad *)

Module Py.

(** The exceptions the embedded code can raise. *)
Inductive exn : Type :=
| NoTilesFound        (* ValueError("No tiles found for the given bbox/zoom.") *)
| EmptyCrop           (* ValueError("Cropped mosaic is empty. ...") *)
| NoFiniteElevation   (* "No finite elevation values found in the area." *)
| TileFailure (x y : Z) (* raise_for_status / Image.open on tile (x, y) *)
| ZeroDivisionError
| MathDomainError     (* ValueError: math domain error *)
| ShapeMismatch       (* ValueError: could not broadcast input array *)
| NotANumber          (* floor / ceil of NaN *)
| OverflowError.      (* floor / ceil of an infinity *)

Inductive result (A : Type) : Type :=
| Ok (a : A)
| Raise (e : exn).

Arguments Ok {A} a.
Arguments Raise {A} e.

Definition bind {A B} (m : result A) (k : A -> result B) : result B :=
  match m with
  | Ok a => k a
  | Raise e => Raise e
  end.

Definition is_ok {A} (m : result A) : bool :=
  match m with Ok _ => true | Raise _ => false end.

(** [for x in l: s = body(s, x)] with early exit on the first exception. *)
Fixpoint foldM {A S} (body : S -> A -> result S) (l : list A) (s : S)
  : result S :=
  match l with
  | [] => Ok s
  | x :: l' => bind (body s x) (foldM body l')
  end.

(** [[f(x) for x in l]] with early exit on the first exception. *)
Fixpoint mapM {A B} (f : A -> result B) (l : list A) : result (list B) :=
  match l with
  | [] => Ok []
  | x :: l' => bind (f x) (fun y => bind (mapM f l') (fun ys => Ok (y :: ys)))
  end.

End Py.

Import Py.

Declare Scope py_scope.
Delimit Scope py_scope with py.
Notation "x <- m ;; k" := (Py.bind m (fun x => k))
  (at level 61, m at next level, right associativity) : py_scope.
Notation "' pat <- m ;; k" := (Py.bind m (fun x => match x with pat => k end))
  (at level 61, pat pattern, m at next level, right associativity) : py_scope.

Definition TILE_SIZE : Z := 256.

(** ** IEEE 754 numbers

    NumPy's [float32] is binary32, a Python [float] is binary64.  The
    operations are those of [SpecFloat], which round to nearest, ties to
    even. *)

Local Open Scope Z_scope.

Module F32.
Definition prec : Z := 24.
Definition emax : Z := 128.
Definition of_Z (z : Z) : spec_float := binary_normalize prec emax z 0 false.
Definition add : spec_float -> spec_float -> spec_float := SFadd prec emax.
Definition sub : spec_float -> spec_float -> spec_float := SFsub prec emax.
Definition mul : spec_float -> spec_float -> spec_float := SFmul prec emax.
Definition div : spec_float -> spec_float -> spec_float := SFdiv prec emax.
End F32.

Module F64.
Definition prec : Z := 53.
Definition emax : Z := 1024.
Definition of_Z (z : Z) : spec_float := binary_normalize prec emax z 0 false.
Definition add : spec_float -> spec_float -> spec_float := SFadd prec emax.
Definition sub : spec_float -> spec_float -> spec_float := SFsub prec emax.
Definition mul : spec_float -> spec_float -> spec_float := SFmul prec emax.
Definition div : spec_float -> spec_float -> spec_float := SFdiv prec emax.
(** The decimal literal [n / 10^k]: both operands are exact, the quotient is
    rounded once, as the literal is when Python reads it. *)
Definition dec (n : Z) (k : Z) : spec_float := div (of_Z n) (of_Z (10 ^ k)).
(** [float(x)] for a NumPy [float32] scalar [x]: exact. *)
Definition of_f32 (f : spec_float) : spec_float :=
  match f with
  | S754_finite s m e => binary_normalize prec emax (cond_Zopp s (Zpos m)) e false
  | _ => f
  end.
End F64.

(** [np.isfinite]. *)
Definition is_finite (f : spec_float) : bool :=
  match f with
  | S754_finite _ _ _ | S754_zero _ => true
  | _ => false
  end.

(** The rational number a float stands for (0 for infinities and NaN). *)
Definition SF2Q (f : spec_float) : Q :=
  match f with
  | S754_finite s m e => inject_Z (cond_Zopp s (Zpos m)) * Qpower 2 e
  | _ => 0
  end.

(** Structural equality of floats, as a boolean. *)
Definition sf_eqb (x y : spec_float) : bool :=
  match x, y with
  | S754_zero s1, S754_zero s2 => Bool.eqb s1 s2
  | S754_infinity s1, S754_infinity s2 => Bool.eqb s1 s2
  | S754_nan, S754_nan => true
  | S754_finite s1 m1 e1, S754_finite s2 m2 e2 =>
      Bool.eqb s1 s2 && Pos.eqb m1 m2 && Z.eqb e1 e2
  | _, _ => false
  end.

(** [math.floor] and [math.ceil]: a Python [int], or an exception on NaN and
    on the infinities. *)
Definition py_floor (f : spec_float) : result Z :=
  match f with
  | S754_zero _ => Ok 0
  | S754_finite s m e => Ok (Z.shiftl (cond_Zopp s (Zpos m)) e)
  | S754_nan => Raise NotANumber
  | S754_infinity _ => Raise OverflowError
  end.

Definition py_ceil (f : spec_float) : result Z :=
  match f with
  | S754_zero _ => Ok 0
  | S754_finite s m e => Ok (- Z.shiftl (- cond_Zopp s (Zpos m)) e)
  | S754_nan => Raise NotANumber
  | S754_infinity _ => Raise OverflowError
  end.

(** Python's [a / b] on floats. *)
Definition py_fdiv (a b : spec_float) : result spec_float :=
  match b with
  | S754_zero _ => Raise ZeroDivisionError
  | _ => Ok (F64.div a b)
  end.

(** Python's [max(a, b)] and [min(a, b)]: the first argument wins unless the
    second is strictly beyond it. *)
Definition py_fmax (a b : spec_float) : spec_float := if SFltb a b then b else a.
Definition py_fmin (a b : spec_float) : spec_float := if SFltb b a then b else a.

(** ** Tile decoder ([decode_terrarium]) *)

(** One RGBA pixel of a tile image, each channel a [uint8]. *)
Record pixel : Type := RGBA { red : Z; green : Z; blue : Z; alpha : Z }.

Definition channel (c : Z) : Prop := 0 <= c < 256.

(** [(r * 256.0 + g + b / 256.0) - 32768.0] on [float32] arrays: one pixel. *)
Definition decode_pixel (r g b : Z) : spec_float :=
  let r := F32.of_Z r in
  let g := F32.of_Z g in
  let b := F32.of_Z b in
  F32.sub
    (F32.add (F32.add (F32.mul r (F32.of_Z 256)) g) (F32.div b (F32.of_Z 256)))
    (F32.of_Z 32768).

(** An image and an elevation grid: a shape and the value at (row, column). *)
Record image : Type := Image { img_h : Z; img_w : Z; img_px : Z -> Z -> pixel }.
Record raster : Type := Raster { rows : Z; cols : Z; cell : Z -> Z -> spec_float }.

Definition decode_terrarium (png_image : image) : raster :=
  {| rows := img_h png_image;
     cols := img_w png_image;
     cell := fun i j =>
       let p := img_px png_image i j in decode_pixel (red p) (green p) (blue p) |}.

(** The channels of an image are [uint8] values. *)
Definition valid_image (img : image) : Prop :=
  forall i j,
    channel (red (img_px img i j)) /\ channel (green (img_px img i j)) /\
    channel (blue (img_px img i j)).

(** ** Level planner (the "Prepare contour levels" block of [main] and of
    [generate_contour_map]) *)

(** [np.arange(start, stop, step)] on Python floats.  NumPy computes the
    length as [ceil((stop - start) / step)], stores [start] and
    [start + step], and fills the rest as [start + i * delta] with
    [delta = (start + step) - start]. *)
Definition arange_fill (start next : spec_float) (n : nat) : list spec_float :=
  let delta := F64.sub next start in
  map (fun i : nat =>
         match i with
         | O => start
         | S O => next
         | _ => F64.add start (F64.mul (F64.of_Z (Z.of_nat i)) delta)
         end)
      (seq 0 n).

Definition np_arange (start stop step : spec_float) : result (list spec_float) :=
  (q <- py_fdiv (F64.sub stop start) step ;;
   n <- py_ceil q ;;
   Ok (arange_fill start (F64.add start step) (Z.to_nat n)))%py.

(** [if interval <= 0: interval = max(1.0, (max_e - min_e) / 15.0)] *)
Definition effective_interval (min_e max_e interval : spec_float) : spec_float :=
  if SFleb interval (F64.of_Z 0)
  then py_fmax (F64.of_Z 1) (F64.div (F64.sub max_e min_e) (F64.of_Z 15))
  else interval.

(** [start = math.floor(min_e / interval) * interval] *)
Definition level_start (min_e interval : spec_float) : result spec_float :=
  (q <- py_fdiv min_e interval ;;
   n <- py_floor q ;;
   Ok (F64.mul (F64.of_Z n) interval))%py.

(** [stop = math.ceil(max_e / interval) * interval] *)
Definition level_stop (max_e interval : spec_float) : result spec_float :=
  (q <- py_fdiv max_e interval ;;
   n <- py_ceil q ;;
   Ok (F64.mul (F64.of_Z n) interval))%py.

Definition contour_levels (min_e max_e interval : spec_float)
  : result (list spec_float) :=
  (let interval := effective_interval min_e max_e interval in
   start <- level_start min_e interval ;;
   stop <- level_stop max_e interval ;;
   np_arange start (F64.add stop interval) interval)%py.

(** [np.nanmin] / [np.nanmax] of a non-empty array of finite [float32]. *)
Definition nanmin (v : spec_float) (vs : list spec_float) : spec_float :=
  fold_left py_fmin vs v.
Definition nanmax (v : spec_float) (vs : list spec_float) : spec_float :=
  fold_left py_fmax vs v.

(** The whole block, from the resampled raster (its cells in row order). *)
Definition plan_levels (elev_resized : list spec_float) (interval : spec_float)
  : result (list spec_float) :=
  match filter is_finite elev_resized with
  | [] => Raise NoFiniteElevation
  | v :: vs =>
      contour_levels (F64.of_f32 (nanmin v vs)) (F64.of_f32 (nanmax v vs)) interval
  end.

(** ** Zoom selection ([generate_contour_map] of [app.py] and
    [app_monetized.py]) *)

Definition bbox64 : Type := (spec_float * spec_float * spec_float * spec_float)%type.

(** [area_size = max(max_lon - min_lon, max_lat - min_lat)] *)
Definition area_size (bbox : bbox64) : spec_float :=
  let '(min_lon, min_lat, max_lon, max_lat) := bbox in
  py_fmax (F64.sub max_lon min_lon) (F64.sub max_lat min_lat).

(** [x > c] on Python floats. *)
Definition gt (x c : spec_float) : bool := SFltb c x.

Definition zoom_of_area (area_size : spec_float) : Z :=
  if gt area_size (F64.of_Z 2) then 8
  else if gt area_size (F64.of_Z 1) then 9
  else if gt area_size (F64.dec 5 1) then 10
  else if gt area_size (F64.dec 2 1) then 11
  else if gt area_size (F64.dec 1 1) then 12
  else if gt area_size (F64.dec 5 2) then 13
  else 14.

Definition select_zoom (bbox : bbox64) : Z := zoom_of_area (area_size bbox).

(** ** Projector ([lonlat_to_global_pixel]) *)

Section Geometry.
Local Open Scope R_scope.

(** Python's [a / b] and [math.log(a)], with their exceptions. *)
Definition py_div (a b : R) : result R :=
  if Req_dec_T b 0 then Raise ZeroDivisionError else Ok (a / b).

Definition py_log (a : R) : result R :=
  if Rle_dec a 0 then Raise MathDomainError else Ok (ln a).

(** [math.radians] *)
Definition radians (deg : R) : R := deg * (PI / 180).

(** [scale = TILE_SIZE * (2 ** zoom)] *)
Definition pixel_scale (zoom : Z) : R := IZR TILE_SIZE * powerRZ 2 zoom.

(** [siny = min(max(math.sin(lat_rad), -0.9999), 0.9999)] *)
Definition clamped_sin (lat : R) : R :=
  Rmin (Rmax (sin (radians lat)) (-0.9999)) 0.9999.

Definition lonlat_to_global_pixel (lon lat : R) (zoom : Z) : result (R * R) :=
  (let scale := pixel_scale zoom in
   let x := (lon + 180) / 360 * scale in
   let siny := clamped_sin lat in
   ratio <- py_div (1 + siny) (1 - siny) ;;
   l <- py_log ratio ;;
   let y := (0.5 - l / (4 * PI)) * scale in
   Ok (x, y))%py.

(** ** Crop window (the end of [build_elevation_mosaic])

    [math.floor] and [math.ceil] are [Zfloor] and [Zceil]. *)

Definition bbox : Type := (R * R * R * R)%type.

(** The number of indices [a[start:stop]] selects in an axis of length [n]:
    a negative bound counts from the end, both are clipped to the axis. *)
Definition slice_bound (n i : Z) : Z :=
  if (i <? 0)%Z then Z.max (i + n) 0 else Z.min i n.

Definition slice_len (n start stop : Z) : Z :=
  Z.max 0 (slice_bound n stop - slice_bound n start).

Definition crop_box : Type := (Z * Z * Z * Z)%type.

Definition crop_window (b : bbox) (zoom : Z)
    (mosaic_w mosaic_h origin_global_px_x origin_global_px_y : Z)
  : result crop_box :=
  (let '(min_lon, min_lat, max_lon, max_lat) := b in
   ' (x0, y_top) <- lonlat_to_global_pixel min_lon max_lat zoom ;;
   ' (x1, y_bottom) <- lonlat_to_global_pixel max_lon min_lat zoom ;;
   let left := Z.max 0 (Zfloor (x0 - IZR origin_global_px_x)) in
   let right := Z.min mosaic_w (Zceil (x1 - IZR origin_global_px_x)) in
   let top := Z.max 0 (Zfloor (y_top - IZR origin_global_px_y)) in
   let bottom := Z.min mosaic_h (Zceil (y_bottom - IZR origin_global_px_y)) in
   if (slice_len mosaic_h top bottom * slice_len mosaic_w left right =? 0)%Z
   then Raise EmptyCrop
   else Ok (left, top, right, bottom))%py.

(** ** Overlay mapper ([scale_coordinates_to_output]) *)

Definition map_point (zoom origin_global_px_x origin_global_px_y crop_left crop_top : Z)
    (scale_x scale_y : R) (p : R * R) : result (R * R) :=
  (let '(lon, lat) := p in
   ' (gx, gy) <- lonlat_to_global_pixel lon lat zoom ;;
   let px := (gx - IZR origin_global_px_x - IZR crop_left) * scale_x in
   let py := (gy - IZR origin_global_px_y - IZR crop_top) * scale_y in
   Ok (px, py))%py.

Fixpoint scale_coordinates_to_output (lines_lonlat : list (list (R * R)))
    (zoom origin_global_px_x origin_global_px_y crop_left crop_top : Z)
    (scale_x scale_y : R) : result (list (list (R * R))) :=
  match lines_lonlat with
  | [] => Ok []
  | line :: rest =>
      (pts <- Py.mapM (map_point zoom origin_global_px_x origin_global_px_y
                                 crop_left crop_top scale_x scale_y) line ;;
       scaled <- scale_coordinates_to_output rest zoom origin_global_px_x
                   origin_global_px_y crop_left crop_top scale_x scale_y ;;
       Ok (if (2 <=? length pts)%nat then pts :: scaled else scaled))%py
  end.

(** ** Road lines (the loop of [fetch_roads_overpass]) *)

(** An element of the Overpass answer: its ["type"] (a node, a way or a
    relation) and, when the key is present, its ["geometry"] as (lon, lat)
    pairs. *)
Inductive element_type : Type := Node | Way | Relation.

Record element : Type :=
  Element { el_type : element_type; el_geometry : option (list (R * R)) }.

Definition is_way (t : element_type) : bool :=
  match t with Way => true | _ => false end.

Fixpoint overpass_lines (elements : list element) : list (list (R * R)) :=
  match elements with
  | [] => []
  | el :: rest =>
      match is_way (el_type el), el_geometry el with
      | true, Some coords =>
          if (2 <=? length coords)%nat
          then coords :: overpass_lines rest
          else overpass_lines rest
      | _, _ => overpass_lines rest
      end
  end.

End Geometry.

(** ** Mosaic assembly ([build_elevation_mosaic]) *)

(** A [mercantile.Tile] of the request's zoom level. *)
Record Tile : Type := MkTile { tile_x : Z; tile_y : Z }.

(** [np.full((h, w), np.nan, dtype=np.float32)] *)
Definition np_full_nan (h w : Z) : raster :=
  {| rows := h; cols := w; cell := fun _ _ => S754_nan |}.

Definition in_block (oy ox i j : Z) : bool :=
  (oy <=? i) && (i <? oy + TILE_SIZE) && (ox <=? j) && (j <? ox + TILE_SIZE).

(** [mosaic[oy : oy + TILE_SIZE, ox : ox + TILE_SIZE] = tile_elev].  The
    block lies inside the mosaic, so the assignment needs a
    [TILE_SIZE] x [TILE_SIZE] grid; another shape is rejected (NumPy would
    still broadcast a one-row or one-column grid, which no tile source
    serves). *)
Definition paste (mosaic : raster) (oy ox : Z) (tile_elev : raster) : result raster :=
  if (rows tile_elev =? TILE_SIZE) && (cols tile_elev =? TILE_SIZE)
  then Ok {| rows := rows mosaic;
             cols := cols mosaic;
             cell := fun i j =>
               if in_block oy ox i j then cell tile_elev (i - oy) (j - ox)
               else cell mosaic i j |}
  else Raise ShapeMismatch.

(** [mosaic[top:bottom, left:right]] *)
Definition crop (mosaic : raster) (top bottom left right : Z) : raster :=
  {| rows := slice_len (rows mosaic) top bottom;
     cols := slice_len (cols mosaic) left right;
     cell := fun i j =>
       cell mosaic (i + slice_bound (rows mosaic) top)
                   (j + slice_bound (cols mosaic) left) |}.

Definition min_of (x : Z) (xs : list Z) : Z := fold_left Z.min xs x.
Definition max_of (x : Z) (xs : list Z) : Z := fold_left Z.max xs x.

Section Mosaic.

(** [mercantile.tiles(min_lon, min_lat, max_lon, max_lat, zoom)], a library
    call, and the fetch of one tile image
    ([session.get], [raise_for_status], [Image.open]), which the network
    decides: both are parameters. *)
Variable mercantile_tiles : bbox -> Z -> list Tile.
Variable fetch_image : Z -> Tile -> result image.

(** The body of [for t in tiles]. *)
Definition place_tile (zoom min_tx min_ty : Z) (mosaic : raster) (t : Tile)
  : result raster :=
  (img <- fetch_image zoom t ;;
   let tile_elev := decode_terrarium img in
   let oy := (tile_y t - min_ty) * TILE_SIZE in
   let ox := (tile_x t - min_tx) * TILE_SIZE in
   paste mosaic oy ox tile_elev)%py.

(** Tile range and pixel extent of a non-empty tile list:
    [(min_tx, min_ty, mosaic_w, mosaic_h)]. *)
Definition mosaic_extent (t0 : Tile) (ts : list Tile) : Z * Z * Z * Z :=
  let min_tx := min_of (tile_x t0) (map tile_x ts) in
  let max_tx := max_of (tile_x t0) (map tile_x ts) in
  let min_ty := min_of (tile_y t0) (map tile_y ts) in
  let max_ty := max_of (tile_y t0) (map tile_y ts) in
  (min_tx, min_ty, (max_tx - min_tx + 1) * TILE_SIZE, (max_ty - min_ty + 1) * TILE_SIZE).

(** The mosaic buffer after the loop over a non-empty tile list. *)
Definition assemble_mosaic (zoom : Z) (t0 : Tile) (ts : list Tile) : result raster :=
  let '(min_tx, min_ty, mosaic_w, mosaic_h) := mosaic_extent t0 ts in
  Py.foldM (place_tile zoom min_tx min_ty) (t0 :: ts) (np_full_nan mosaic_h mosaic_w).

Definition build_elevation_mosaic (b : bbox) (zoom : Z)
  : result (raster * crop_box * (Z * Z)) :=
  match mercantile_tiles b zoom with
  | [] => Raise NoTilesFound
  | t0 :: ts =>
      (let '(min_tx, min_ty, mosaic_w, mosaic_h) := mosaic_extent t0 ts in
       mosaic <- assemble_mosaic zoom t0 ts ;;
       let origin_global_px_x := min_tx * TILE_SIZE in
       let origin_global_px_y := min_ty * TILE_SIZE in
       ' (c_left, c_top, c_right, c_bottom) <-
         crop_window b zoom mosaic_w mosaic_h origin_global_px_x origin_global_px_y ;;
       Ok (crop mosaic c_top c_bottom c_left c_right,
           (c_left, c_top, c_right, c_bottom),
           (origin_global_px_x, origin_global_px_y)))%py
  end.

(** A tile fails when its image cannot be fetched or opened, or cannot be
    placed. *)
Definition tile_fails (zoom : Z) (t : Tile) : bool :=
  match fetch_image zoom t with
  | Ok img => negb ((img_h img =? TILE_SIZE) && (img_w img =? TILE_SIZE))
  | Raise _ => true
  end.


End Mosaic.

(** ** The Projector as the specification words it

    [scale = tileSize * 2^zoom], [px = (lon + 180) / 360 * scale], the sine
    of the latitude in radians clamped to [-0.9999, 0.9999], and
    [py = (0.5 - ln((1 + s) / (1 - s)) / (4 pi)) * scale]. *)

Section ProjectorSpec.
Local Open Scope R_scope.

Definition clamp (lo hi x : R) : R :=
  if Rlt_dec x lo then lo else if Rlt_dec hi x then hi else x.

Definition project_spec (lon lat : R) (zoom : Z) : R * R :=
  let scale := 256 * powerRZ 2 zoom in
  let s := clamp (-0.9999) 0.9999 (sin (lat * PI / 180)) in
  ((lon + 180) / 360 * scale,
   (0.5 - ln ((1 + s) / (1 - s)) / (4 * PI)) * scale).

(** The total map of one overlay point that [map_point] computes. *)
Definition mapped_point (zoom ox oy crop_left crop_top : Z) (scale_x scale_y : R)
    (p : R * R) : R * R :=
  let g := project_spec (fst p) (snd p) zoom in
  ((fst g - IZR ox - IZR crop_left) * scale_x,
   (snd g - IZR oy - IZR crop_top) * scale_y).

(** The BoundingBox invariant of the data model. *)
Definition valid_bbox (b : bbox) : Prop :=
  let '(min_lon, min_lat, max_lon, max_lat) := b in
  min_lon < max_lon /\ min_lat < max_lat /\
  -180 <= min_lon /\ max_lon <= 180 /\ -85 <= min_lat /\ max_lat <= 85.

(** The projected corners of a bounding box: [(x0, y_top, x1, y_bottom)]. *)
Definition bbox_corners (b : bbox) (zoom : Z) : R * R * R * R :=
  let '(min_lon, min_lat, max_lon, max_lat) := b in
  (fst (project_spec min_lon max_lat zoom), snd (project_spec min_lon max_lat zoom),
   fst (project_spec max_lon min_lat zoom), snd (project_spec max_lon min_lat zoom)).

(** The bounding box is contained in the resolved tile set: its projected
    corners lie in the mosaic of the given origin and pixel extent. *)
Definition covers (b : bbox) (zoom mosaic_w mosaic_h ox oy : Z) : Prop :=
  let '(x0, y_top, x1, y_bottom) := bbox_corners b zoom in
  IZR ox <= x0 /\ x1 <= IZR (ox + mosaic_w) /\
  IZR oy <= y_top /\ y_bottom <= IZR (oy + mosaic_h).

(** The crop window before the emptiness check:
    [(left, top, right, bottom)]. *)
Definition crop_bounds (b : bbox) (zoom mosaic_w mosaic_h ox oy : Z) : crop_box :=
  let '(x0, y_top, x1, y_bottom) := bbox_corners b zoom in
  (Z.max 0 (Zfloor (x0 - IZR ox)), Z.max 0 (Zfloor (y_top - IZR oy)),
   Z.min mosaic_w (Zceil (x1 - IZR ox)), Z.min mosaic_h (Zceil (y_bottom - IZR oy))).

Definition window_area (w : crop_box) : Z :=
  let '(c_left, c_top, c_right, c_bottom) := w in
  ((c_right - c_left) * (c_bottom - c_top))%Z.

End ProjectorSpec.

(** A line is kept when it has at least two points. *)
Definition long_enough {A : Type} (l : list A) : bool := (2 <=? length l)%nat.

(** ** A tile source with one missing tile

    Every tile of column 0 is served as a flat image at elevation 0; every
    other tile fails to fetch. *)

Definition flat_image : image :=
  Image TILE_SIZE TILE_SIZE (fun _ _ => RGBA 128 0 0 255).

Definition fetch_column_0 (zoom : Z) (t : Tile) : result image :=
  if tile_x t =? 0 then Ok flat_image
  else Raise (TileFailure (tile_x t) (tile_y t)).


(** ** Auxiliary definitions for the proofs on floats *)

(** A mantissa shifted left by [n] bits (unchanged when [n <= 0]). *)
Definition pshl (m : positive) (n : Z) : positive :=
  match n with
  | Zpos p => Pos.iter xO m p
  | _ => m
  end.

(** The float of the format [(prec, emax)] nearest to [v * 2^e]. *)
Definition canon (prec emax v e : Z) : spec_float :=
  binary_normalize prec emax v e false.

(** Integers of at most [prec] bits, and the exponents at which all of them
    are normal numbers of the format. *)
Definition small (prec v : Z) : Prop := Z.abs v < 2 ^ prec.
Definition in_range (prec emax e : Z) : Prop :=
  emin prec emax + prec - 1 <= e <= emax - prec.

Definition exact_rec (m : positive) : shr_record :=
  Build_shr_record (Zpos m) false false.

(** [P] holds of [0 .. n-1]. *)
Fixpoint forall_below (n : nat) (P : Z -> bool) : bool :=
  match n with
  | O => true
  | S n' => P (Z.of_nat n') && forall_below n' P
  end.

(** ** Auxiliary definitions: the order of floats

    [SFcompare] orders the floats other than NaN as it orders their keys:
    the class (infinities, negative, zero, positive), then the exponent,
    then the mantissa, both negated for negative numbers. *)

Definition is_nan (f : spec_float) : bool :=
  match f with S754_nan => true | _ => false end.

Definition SFkey (f : spec_float) : Z * Z * Z :=
  match f with
  | S754_nan => (0, 0, 0)
  | S754_zero _ => (0, 0, 0)
  | S754_infinity true => (-2, 0, 0)
  | S754_infinity false => (2, 0, 0)
  | S754_finite false m e => (1, e, Zpos m)
  | S754_finite true m e => (-1, - e, - Zpos m)
  end.

Definition key_lt (a b : Z * Z * Z) : Prop :=
  let '(c1, e1, m1) := a in
  let '(c2, e2, m2) := b in
  c1 < c2 \/ (c1 = c2 /\ (e1 < e2 \/ (e1 = e2 /\ m1 < m2))).

Definition key_le (a b : Z * Z * Z) : Prop := key_lt a b \/ a = b.

(** ** From the mosaic to the canvas (in [main] and in
    [generate_contour_map]: the two scale factors and the road block) *)

Section Canvas.
Local Open Scope R_scope.


(** The elements of the Overpass answer ([requests.post],
    [raise_for_status], [resp.json()], [data.get("elements", [])]), which the
    network decides: a parameter. *)
Variable overpass_elements : bbox -> result (list element).



End Canvas.

(** ** The web forms ([validate_bbox], [generate], [purchase_credits] and
    [payment_success] of [app_monetized.py]; [validate_bbox] is the same in
    [app.py]) *)

(** [s.split(",")]: the pieces between the commas, empty ones included. *)
Fixpoint split_comma (s : string) : list string :=
  match s with
  | EmptyString => [EmptyString]
  | String c rest =>
      if Ascii.eqb c ","%char then EmptyString :: split_comma rest
      else match split_comma rest with
           | [] => [String c EmptyString]
           | p :: ps => String c p :: ps
           end
  end.

(** [int(x)] of a float: truncation, or an exception on NaN (a ValueError)
    and on the infinities (an OverflowError). *)
Definition py_int (f : spec_float) : result Z :=
  match f with
  | S754_zero _ => Ok 0
  | S754_finite s m e => Ok (cond_Zopp s (Z.shiftl (Zpos m) e))
  | S754_nan => Raise NotANumber
  | S754_infinity _ => Raise OverflowError
  end.

(** What [validate_bbox] rejects; each is raised as
    [ValueError("Invalid bounding box format: ...")]. *)
Inductive bbox_problem : Type :=
| NotAFloat             (* float(): could not convert string to float *)
| NotFourValues         (* "Bounding box must have 4 values" *)
| MinNotBelowMax        (* "Invalid bbox: ensure min < max for lon and lat" *)
| LongitudeOutOfRange   (* "Longitude must be between -180 and 180" *)
| LatitudeOutOfRange.   (* "Latitude must be between -85 and 85" *)

Inductive validated : Type :=
| Accepted (b : bbox64)
| ValueError (why : bbox_problem).

(** [lo <= x <= hi] with integer bounds. *)
Definition between (lo hi : Z) (x : spec_float) : bool :=
  SFleb (F64.of_Z lo) x && SFleb x (F64.of_Z hi).

(** The fields of the posted form ([None]: the key is absent). *)
Record form : Type := Form {
  form_bbox : option string;
  form_interval : option string;
  form_background_color : option string;
  form_roads : bool;
  form_width : option string;
  form_height : option string }.

(** The arguments [generate] passes to [generate_contour_map]. *)
Record inputs : Type := Inputs {
  in_bbox : bbox64;
  in_interval : spec_float;
  in_background_color : string;
  in_roads : bool;
  in_width : Z;
  in_height : Z }.

(** The exceptions that reach the handlers of [generate]. *)
Inductive failure : Type :=
| BadInterval                    (* float(interval): ValueError *)
| BadBox (why : bbox_problem)    (* validate_bbox: ValueError *)
| SizeOverflow                   (* int(float(...)) of an infinity: OverflowError *)
| RenderFailure (e : exn).       (* raised by generate_contour_map *)

Inductive flash : Type :=
| NeedCredits
| BboxRequired
| IntervalNotPositive
| WidthOutOfRange
| HeightOutOfRange
| Failed (e : failure).

Inductive response : Type :=
| RedirectPurchase (message : flash)
| RedirectIndex (message : flash)
| ResultPage (filename : string) (credits : Z).

(** Where the [try] block of [generate] stands before the credit is
    deducted: it goes on with the inputs, has returned a redirect, or has
    raised. *)
Inductive step (A : Type) : Type :=
| Continue (a : A)
| Respond (message : flash)
| Throw (e : failure).

Arguments Continue {A} a.
Arguments Respond {A} message.
Arguments Throw {A} e.

(** A row of the [Transaction] table. *)
Record transaction : Type := Transaction {
  t_id : Z;
  t_user : Z;
  t_intent : string;
  t_credits : Z;
  t_amount : Z;
  t_status : string }.

(** [CREDIT_PRICES]: the credits of a package and its price in cents. *)
Definition CREDIT_PRICES : list (Z * Z) :=
  [(1, 200); (5, 1000); (15, 3000); (50, 10000)].

(** [CREDIT_PRICES[credits]['price']] *)
Definition price_of (credits : Z) : option Z :=
  option_map snd (find (fun entry => fst entry =? credits) CREDIT_PRICES).

Section Web.

(** [str.strip] and [float] of a string ([None] when it raises ValueError)
    are library functions; [generate_contour_map] writes the image and the
    database row; [stripe.PaymentIntent.retrieve(id).status] asks the payment
    service ([None] when it raises).  All four are parameters. *)
Variable py_strip : string -> string.
Variable py_float : string -> option spec_float.
Variable generate_contour_map : inputs -> Z -> result string.
Variable stripe_status : string -> option string.

(** [stripe.PaymentIntent.create(amount, metadata: user_id, credits).id]
    ([None] when it raises): a parameter too. *)
Variable stripe_create : Z -> Z -> Z -> option string.

(** [[float(p.strip()) for p in parts]] *)
Fixpoint parse_parts (parts : list string) : option (list spec_float) :=
  match parts with
  | [] => Some []
  | p :: rest =>
      match py_float (py_strip p) with
      | None => None
      | Some x =>
          match parse_parts rest with
          | None => None
          | Some xs => Some (x :: xs)
          end
      end
  end.

Definition validate_bbox (bbox_str : string) : validated :=
  match parse_parts (split_comma bbox_str) with
  | None => ValueError NotAFloat
  | Some [min_lon; min_lat; max_lon; max_lat] =>
      if negb (SFltb min_lon max_lon && SFltb min_lat max_lat)
      then ValueError MinNotBelowMax
      else if negb (between (-180) 180 min_lon && between (-180) 180 max_lon)
      then ValueError LongitudeOutOfRange
      else if negb (between (-85) 85 min_lat && between (-85) 85 max_lat)
      then ValueError LatitudeOutOfRange
      else Accepted (min_lon, min_lat, max_lon, max_lat)
  | Some _ => ValueError NotFourValues
  end.

(** [int(float(s)) if s and s != 'NaN' else default], inside
    [try: ... except (ValueError, TypeError): default]: an OverflowError is
    not caught here. *)
Definition parse_size (field : option string) (default_str : string) (default : Z)
  : result Z :=
  let s := match field with Some s => s | None => default_str end in
  if (s =? "")%string || (s =? "NaN")%string then Ok default
  else match py_float s with
       | None => Ok default
       | Some x =>
           match py_int x with
           | Ok n => Ok n
           | Raise OverflowError => Raise OverflowError
           | Raise _ => Ok default
           end
       end.

(** The [try] block of [generate] up to the deduction of the credit. *)
Definition checked_inputs (f : form) : step inputs :=
  let bbox_str := py_strip (match form_bbox f with Some s => s | None => ""%string end) in
  match (match form_interval f with
         | Some s => py_float s
         | None => Some (F64.of_Z 10)
         end) with
  | None => Throw BadInterval
  | Some interval =>
      let background_color :=
        py_strip (match form_background_color f with
                  | Some s => s
                  | None => "#ffffff"%string
                  end) in
      let include_roads := form_roads f in
      match parse_size (form_width f) "1600" 1600 with
      | Raise _ => Throw SizeOverflow
      | Ok width =>
          match parse_size (form_height f) "1200" 1200 with
          | Raise _ => Throw SizeOverflow
          | Ok height =>
              if (bbox_str =? "")%string then Respond BboxRequired
              else match validate_bbox bbox_str with
                   | ValueError why => Throw (BadBox why)
                   | Accepted bbox =>
                       if SFleb interval (F64.of_Z 0) then Respond IntervalNotPositive
                       else
                         let background_color :=
                           if String.prefix "#" background_color then background_color
                           else ("#" ++ background_color)%string in
                         if (width <? 100) || (5000 <? width)
                         then Respond WidthOutOfRange
                         else if (height <? 100) || (5000 <? height)
                         then Respond HeightOutOfRange
                         else Continue (Inputs bbox interval background_color
                                               include_roads width height)
                   end
          end
      end
  end.

(** [generate]: the response and the credits of the user afterwards.  Both
    handlers, [except ValueError] and [except Exception], add one credit and
    redirect to the index; they differ in the wording of the message only. *)
Definition generate (credits user_id : Z) (f : form) : response * Z :=
  if credits <? 1 then (RedirectPurchase NeedCredits, credits)
  else match checked_inputs f with
       | Respond message => (RedirectIndex message, credits)
       | Throw e => (RedirectIndex (Failed e), credits + 1)
       | Continue i =>
           let credits := credits - 1 in
           match generate_contour_map i user_id with
           | Ok filename => (ResultPage filename credits, credits)
           | Raise e => (RedirectIndex (Failed (RenderFailure e)), credits + 1)
           end
       end.

(** [Transaction.query.filter_by(stripe_payment_intent_id=..., user_id=...).first()] *)
Definition first_transaction (payment_intent_id : string) (user_id : Z)
    (transactions : list transaction) : option transaction :=
  find (fun t => (t_intent t =? payment_intent_id)%string && (t_user t =? user_id))
       transactions.

(** [transaction.status = 'completed'], on the row of that primary key. *)
Definition complete (row : transaction) (transactions : list transaction)
  : list transaction :=
  map (fun t =>
         if t_id t =? t_id row
         then Transaction (t_id t) (t_user t) (t_intent t) (t_credits t) (t_amount t)
                          "completed"
         else t)
      transactions.

(** [payment_success]: the credits of the user and the table afterwards
    (the response is a redirect to the index in every case). *)
Definition payment_success (payment_intent : option string) (user_id credits : Z)
    (transactions : list transaction) : Z * list transaction :=
  match payment_intent with
  | None => (credits, transactions)
  | Some payment_intent_id =>
      if (payment_intent_id =? "")%string then (credits, transactions)
      else
        match first_transaction payment_intent_id user_id transactions with
        | None => (credits, transactions)
        | Some row =>
            if (t_status row =? "pending")%string then
              match stripe_status payment_intent_id with
              | Some status =>
                  if (status =? "succeeded")%string
                  then (credits + t_credits row, complete row transactions)
                  else (credits, transactions)
              | None => (credits, transactions)
              end
            else (credits, transactions)
        end
  end.

(** The primary key of a new row: one more than the largest in use. *)
Definition next_id (transactions : list transaction) : Z :=
  1 + fold_left Z.max (map t_id transactions) 0.

(** [purchase_credits] on a posted form: what the checkout page shows (the
    payment intent, the credits and the price; [None] when the form does not
    validate or the payment service raises) and the table afterwards.  The
    package is one of the keys of [CREDIT_PRICES], or the form does not
    validate. *)
Definition purchase_credits (credit_package user_id : Z)
    (transactions : list transaction)
  : option (string * Z * Z) * list transaction :=
  match price_of credit_package with
  | None => (None, transactions)
  | Some price =>
      match stripe_create price user_id credit_package with
      | None => (None, transactions)
      | Some intent_id =>
          (Some (intent_id, credit_package, price),
           transactions ++ [Transaction (next_id transactions) user_id intent_id
                                        credit_package price "pending"])
      end
  end.

End Web.

(** A [float] for the examples: it reads unsigned decimal integers only. *)
Fixpoint digits_value (s : string) (acc : Z) : option Z :=
  match s with
  | EmptyString => Some acc
  | String c rest =>
      let n := Z.of_nat (nat_of_ascii c) in
      if (48 <=? n) && (n <=? 57) then digits_value rest (acc * 10 + (n - 48))
      else None
  end.

Definition float_of_digits (s : string) : option spec_float :=
  match s with
  | EmptyString => None
  | _ => option_map F64.of_Z (digits_value s 0)
  end.

(** ** The bounding box option of the command line ([main]) *)

(** The two [click.UsageError]s of [main]. *)
Inductive usage_error : Type :=
| BadBboxOption    (* "--bbox must be 'min_lon,min_lat,max_lon,max_lat'" *)
| BboxNotOrdered.  (* "Invalid bbox: ensure min < max for lon and lat" *)

Inductive cli_bbox : Type :=
| CliBox (b : bbox64)
| UsageError (why : usage_error).

Section Cli.

Variable py_strip : string -> string.
Variable py_float : string -> option spec_float.

Definition main_bbox (bbox : string) : cli_bbox :=
  match parse_parts py_strip py_float (split_comma bbox) with
  | Some [min_lon; min_lat; max_lon; max_lat] =>
      if negb (SFltb min_lon max_lon && SFltb min_lat max_lat)
      then UsageError BboxNotOrdered
      else CliBox (min_lon, min_lat, max_lon, max_lat)
  | _ => UsageError BadBboxOption
  end.

End Cli.

(** * Properties *)

(** ** Exact arithmetic on floats

    A float operation on small integers scaled by a common power of two is
    exact: nothing is rounded away.  This is what makes the decoder's
    formula exact in [float32]. *)

Lemma iter_pos_eq (A : Type) (f : A -> A) (n : positive) (x : A) :
  iter_pos f n x = Pos.iter f x n.
Proof.
  revert x; induction n as [n IH|n IH|]; intro x; simpl; try reflexivity.
  - rewrite !IH, !Pos.iter_swap. reflexivity.
  - now rewrite !IH.
Qed.

Lemma digits2_pos_shift (m k : positive) :
  Zpos (digits2_pos (Pos.iter xO m k)) = Zpos (digits2_pos m) + Zpos k.
Proof.
  induction k as [|k IH] using Pos.peano_ind.
  - simpl. lia.
  - rewrite Pos.iter_succ. simpl digits2_pos. lia.
Qed.

Lemma shr_exact (m k : positive) :
  iter_pos shr_1 k (exact_rec (Pos.iter xO m k)) = exact_rec m.
Proof.
  rewrite iter_pos_eq.
  induction k as [|k IH] using Pos.peano_ind.
  - reflexivity.
  - rewrite Pos.iter_succ_r, Pos.iter_succ. simpl shr_1. exact IH.
Qed.

Lemma pshl_digits (m : positive) (n : Z) :
  0 <= n -> Zpos (digits2_pos (pshl m n)) = Zpos (digits2_pos m) + n.
Proof.
  destruct n as [|p|p]; simpl; intros H; try lia.
  apply digits2_pos_shift.
Qed.

Lemma pshl_Z (m : positive) (n : Z) :
  0 <= n -> Zpos (pshl m n) = Zpos m * 2 ^ n.
Proof.
  destruct n as [|p|p]; simpl pshl; intros H; try lia.
  induction p as [|p IH] using Pos.peano_ind.
  - simpl. lia.
  - rewrite Pos.iter_succ, Pos2Z.inj_xO, IH by lia.
    rewrite Pos2Z.inj_succ, Z.pow_succ_r; lia.
Qed.

Lemma pshl_pshl (m : positive) (a b : Z) :
  0 <= a -> 0 <= b -> pshl (pshl m a) b = pshl m (a + b).
Proof.
  intros Ha Hb. apply Pos2Z.inj.
  rewrite !pshl_Z, Z.pow_add_r; lia.
Qed.

Lemma shl_align_fst (m : positive) (e e' : Z) :
  fst (shl_align m e e') = pshl m (e - e').
Proof.
  unfold shl_align. replace (e' - e) with (- (e - e')) by lia.
  destruct (e - e') as [|p|p]; reflexivity.
Qed.

Lemma shl_align_eq (m : positive) (e e' : Z) :
  shl_align m e e' = (pshl m (e - e'), Z.min e e').
Proof.
  unfold shl_align. replace (e' - e) with (- (e - e')) by lia.
  destruct (e - e') as [|p|p] eqn:E; simpl; f_equal; lia.
Qed.

Lemma digits2_pos_le (m : positive) :
  forall n, 0 <= n -> Zpos m < 2 ^ n -> Zpos (digits2_pos m) <= n.
Proof.
  induction m as [m IH|m IH|]; intros n Hn Hm; simpl digits2_pos.
  - assert (n <> 0) by (intros ->; simpl in Hm; lia).
    replace n with (Z.succ (n - 1)) in Hm by lia.
    rewrite Z.pow_succ_r in Hm by lia.
    specialize (IH (n - 1)). lia.
  - assert (n <> 0) by (intros ->; simpl in Hm; lia).
    replace n with (Z.succ (n - 1)) in Hm by lia.
    rewrite Z.pow_succ_r in Hm by lia.
    specialize (IH (n - 1)). lia.
  - assert (n <> 0) by (intros ->; simpl in Hm; lia). lia.
Qed.

Lemma SFsub_add_opp (prec emax : Z) (x y : spec_float) :
  SFsub prec emax x y = SFadd prec emax x (SFopp y).
Proof.
  destruct x as [sx|sx| |sx mx ex], y as [sy|sy| |sy my ey]; simpl;
    try reflexivity; try (destruct sx, sy; reflexivity).
Qed.

Lemma binary_round_opp (prec emax : Z) (s : bool) (m : positive) (e : Z) :
  binary_round prec emax (negb s) m e = SFopp (binary_round prec emax s m e).
Proof.
  unfold binary_round. destruct (shl_align _ _ _) as [mz ez].
  unfold binary_round_aux.
  destruct (shr_fexp _ _ _ _ _) as [r1 e1].
  destruct (shr_fexp _ _ _ _ _) as [r2 e2].
  destruct (shr_m r2); try reflexivity.
  destruct (e2 <=? emax - prec); reflexivity.
Qed.

Lemma sf_eqb_eq (x y : spec_float) : sf_eqb x y = true -> x = y.
Proof.
  destruct x, y; simpl; try discriminate; try reflexivity.
  - intros H. apply eqb_prop in H. congruence.
  - intros H. apply eqb_prop in H. congruence.
  - rewrite !andb_true_iff, Pos.eqb_eq, Z.eqb_eq. intros [[H1 H2] H3].
    apply eqb_prop in H1. congruence.
Qed.

Lemma forall_below_spec (n : nat) (P : Z -> bool) :
  forall_below n P = true -> forall z, 0 <= z < Z.of_nat n -> P z = true.
Proof.
  induction n as [|n IH]; simpl; intros H z Hz; [lia|].
  apply andb_true_iff in H. destruct H as [H1 H2].
  destruct (Z.eq_dec z (Z.of_nat n)) as [->|Hne]; [assumption|].
  apply IH; [assumption|lia].
Qed.

Section Format.

Variables prec emax : Z.
Hypothesis prec_pos : 0 < prec.

(** A mantissa of exactly [prec] digits is left alone by the rounding. *)
Lemma binary_round_aux_full (s : bool) (m : positive) (e : Z) :
  Zpos (digits2_pos m) = prec -> emin prec emax <= e <= emax - prec ->
  binary_round_aux prec emax s (Zpos m) e loc_Exact = S754_finite s m e.
Proof.
  intros Hd He.
  assert (Hf : fexp prec emax (Zpos (digits2_pos m) + e) - e = 0)
    by (unfold fexp; lia).
  unfold binary_round_aux, shr_fexp. cbn [Zdigits2 shr_record_of_loc].
  rewrite Hf.
  cbn [shr shr_m loc_of_shr_record round_nearest_even Zdigits2 shr_record_of_loc].
  rewrite Hf. cbn [shr shr_m].
  destruct (Z.leb_spec e (emax - prec)); [reflexivity | lia].
Qed.

(** Trailing zeros beyond [prec] digits are shifted out exactly. *)
Lemma binary_round_aux_shr (s : bool) (m k : positive) (e : Z) :
  Zpos (digits2_pos m) = prec -> emin prec emax <= e + Zpos k <= emax - prec ->
  binary_round_aux prec emax s (Zpos (Pos.iter xO m k)) e loc_Exact
  = S754_finite s m (e + Zpos k).
Proof.
  intros Hd He.
  assert (Hf : fexp prec emax (Zpos (digits2_pos (Pos.iter xO m k)) + e) - e = Zpos k)
    by (rewrite digits2_pos_shift; unfold fexp; lia).
  assert (Hf' : fexp prec emax (Zpos (digits2_pos m) + (e + Zpos k)) - (e + Zpos k) = 0)
    by (unfold fexp; lia).
  unfold binary_round_aux, shr_fexp. cbn [Zdigits2 shr_record_of_loc].
  rewrite Hf. cbn [shr]. fold (exact_rec (Pos.iter xO m k)). rewrite shr_exact.
  cbn [exact_rec shr_m loc_of_shr_record round_nearest_even Zdigits2 shr_record_of_loc].
  rewrite Hf'. cbn [shr shr_m].
  destruct (Z.leb_spec (e + Zpos k) (emax - prec)); [reflexivity | lia].
Qed.

(** Rounding [m * 2^k * 2^e], for [m] of at most [prec] digits, yields the
    normal float with the mantissa [m] shifted to [prec] digits. *)
Lemma binary_round_exact (s : bool) (m : positive) (k e : Z) :
  let d := Zpos (digits2_pos m) in
  0 <= k -> d <= prec -> emin prec emax <= d + k + e - prec <= emax - prec ->
  binary_round prec emax s (pshl m k) e
  = S754_finite s (pshl m (prec - d)) (d + k + e - prec).
Proof.
  intros d Hk Hd He. unfold binary_round.
  rewrite shl_align_eq.
  assert (Hf : fexp prec emax (Zpos (digits2_pos (pshl m k)) + e) = d + k + e - prec)
    by (rewrite pshl_digits by assumption; unfold fexp; fold d; lia).
  rewrite Hf.
  destruct (Z.le_gt_cases (d + k) prec) as [Hle|Hgt].
  - (* the mantissa is shifted left to [prec] digits *)
    rewrite pshl_pshl by lia.
    replace (k + (e - (d + k + e - prec))) with (prec - d) by lia.
    rewrite Z.min_r by lia.
    apply binary_round_aux_full; [|lia].
    rewrite pshl_digits by lia. fold d. lia.
  - (* the mantissa has trailing zeros beyond [prec] digits *)
    replace (pshl (pshl m k) (e - (d + k + e - prec))) with (pshl m k)
      by (destruct (e - (d + k + e - prec)) eqn:E; try reflexivity; lia).
    rewrite Z.min_l by lia.
    replace (pshl m k) with (pshl (pshl m (prec - d)) (d + k - prec))
      by (rewrite pshl_pshl by lia; f_equal; lia).
    destruct (d + k - prec) as [|j|j] eqn:E; try lia.
    simpl pshl at 1.
    replace (d + k + e - prec) with (e + Zpos j) by lia.
    apply binary_round_aux_shr; [|lia].
    rewrite pshl_digits by lia. fold d. lia.
Qed.

Lemma small_digits (v : Z) :
  v <> 0 -> small prec v -> Zpos (digits2_pos (Z.to_pos (Z.abs v))) <= prec.
Proof.
  intros Hv Hs. apply digits2_pos_le; [lia|]. rewrite Z2Pos.id by lia. exact Hs.
Qed.

Lemma canon_finite (v e : Z) :
  v <> 0 -> small prec v -> in_range prec emax e ->
  let m := Z.to_pos (Z.abs v) in
  let d := Zpos (digits2_pos m) in
  canon prec emax v e = S754_finite (v <? 0) (pshl m (prec - d)) (d + e - prec).
Proof.
  intros Hv Hs [He1 He2] m d.
  assert (Hd : d <= prec) by (apply small_digits; assumption).
  assert (Hd1 : 1 <= d) by (unfold d; lia).
  assert (Hr : forall s, binary_round prec emax s m e
               = S754_finite s (pshl m (prec - d)) (d + e - prec)).
  { intros s. change m with (pshl m 0) at 1.
    rewrite binary_round_exact; fold d; try lia.
    f_equal; lia. }
  unfold canon, m in *. destruct v as [|p|p]; [congruence| |]; simpl; apply Hr.
Qed.

(** The float of [v * 2^e] does not depend on how the value is split between
    the integer and the exponent. *)
Lemma canon_shift (v e k : Z) :
  0 <= k -> small prec v -> in_range prec emax e ->
  canon prec emax (v * 2 ^ k) (e - k) = canon prec emax v e.
Proof.
  intros Hk Hs [He1 He2].
  assert (Hr : forall s m, Zpos m < 2 ^ prec ->
            binary_round prec emax s (pshl m k) (e - k) = binary_round prec emax s m e).
  { intros s m Hm.
    assert (Hd : Zpos (digits2_pos m) <= prec) by (apply digits2_pos_le; lia).
    change m with (pshl m 0) at 2.
    rewrite !binary_round_exact; try lia.
    f_equal; lia. }
  unfold canon, small in *. destruct v as [|p|p].
  - reflexivity.
  - rewrite <- pshl_Z by assumption. simpl. apply Hr. simpl in Hs; lia.
  - change (Z.neg p) with (- Z.pos p). rewrite Z.mul_opp_l.
    rewrite <- pshl_Z by assumption. simpl. apply Hr. simpl in Hs; lia.
Qed.

Lemma canon_align (v e : Z) (s : bool) (m : positive) (e' ez : Z) :
  v <> 0 -> small prec v -> in_range prec emax e ->
  canon prec emax v e = S754_finite s m e' -> ez <= e' ->
  cond_Zopp s (Zpos (pshl m (e' - ez))) = v * 2 ^ (e - ez) /\ e' <= e.
Proof.
  intros Hv Hs He Hc Hz.
  pose proof (canon_finite Hv Hs He) as Hf. cbv zeta in Hf. rewrite Hc in Hf.
  pose proof (small_digits Hv Hs) as Hd.
  set (d := Zpos (digits2_pos (Z.to_pos (Z.abs v)))) in *.
  assert (Hs' : s = (v <? 0)) by congruence.
  assert (Hm : m = pshl (Z.to_pos (Z.abs v)) (prec - d)) by congruence.
  assert (He' : e' = d + e - prec) by congruence.
  clear Hf Hc.
  split; [|lia].
  rewrite Hm, pshl_pshl by lia.
  replace (prec - d + (e' - ez)) with (e - ez) by lia.
  rewrite pshl_Z, Z2Pos.id by lia.
  rewrite Hs'. destruct (Z.ltb_spec v 0); simpl; lia.
Qed.

Lemma canon_cases (v e : Z) :
  small prec v -> in_range prec emax e ->
  (v = 0 /\ canon prec emax v e = S754_zero false) \/
  (v <> 0 /\ exists s m e', canon prec emax v e = S754_finite s m e').
Proof.
  intros Hs He. destruct (Z.eq_dec v 0) as [->|Hv].
  - left. split; reflexivity.
  - right. split; [assumption|]. rewrite canon_finite by assumption. eauto.
Qed.

(** Addition of two such floats is exact when the sum is small too. *)
Lemma canon_add (v1 v2 e : Z) :
  small prec v1 -> small prec v2 -> small prec (v1 + v2) -> in_range prec emax e ->
  SFadd prec emax (canon prec emax v1 e) (canon prec emax v2 e)
  = canon prec emax (v1 + v2) e.
Proof.
  intros H1 H2 H12 He.
  destruct (canon_cases H1 He) as [[-> E1]|[N1 (s1 & m1 & e1 & E1)]];
  destruct (canon_cases H2 He) as [[-> E2]|[N2 (s2 & m2 & e2 & E2)]];
  rewrite ?Z.add_0_l, ?Z.add_0_r; rewrite ?E1, ?E2; try reflexivity.
  unfold SFadd. rewrite !shl_align_fst.
  destruct (canon_align N1 H1 He E1 (Z.le_min_l e1 e2)) as [-> L1].
  destruct (canon_align N2 H2 He E2 (Z.le_min_r e1 e2)) as [-> L2].
  rewrite <- Z.mul_add_distr_r.
  set (ez := Z.min e1 e2).
  replace ez with (e - (e - ez)) at 2 by lia.
  apply canon_shift; [lia|assumption..].
Qed.

Lemma canon_opp (v e : Z) :
  v <> 0 -> canon prec emax (- v) e = SFopp (canon prec emax v e).
Proof.
  unfold canon. destruct v as [|p|p]; [congruence| |]; intros _; simpl.
  - apply (binary_round_opp prec emax false).
  - rewrite (binary_round_opp prec emax false).
    destruct (binary_round _ _ _ _ _) as [[]|[]| |[] ? ?]; reflexivity.
Qed.

(** So is subtraction. *)
Lemma canon_sub (v1 v2 e : Z) :
  small prec v1 -> small prec v2 -> small prec (v1 - v2) -> in_range prec emax e ->
  SFsub prec emax (canon prec emax v1 e) (canon prec emax v2 e)
  = canon prec emax (v1 - v2) e.
Proof.
  intros H1 H2 H12 He. destruct (Z.eq_dec v2 0) as [->|N2].
  - rewrite Z.sub_0_r.
    destruct (canon_cases H1 He) as [[-> E1]|[N1 (s1 & m1 & e1 & E1)]];
      [reflexivity|]. now rewrite E1.
  - rewrite SFsub_add_opp, <- canon_opp by assumption.
    apply canon_add; try assumption.
    unfold small in *. now rewrite Z.abs_opp.
Qed.

Lemma Qpower2_add (a b : Z) : (Qpower 2 (a + b) == Qpower 2 a * Qpower 2 b)%Q.
Proof. apply Qpower_plus. discriminate. Qed.

Lemma inject_Z_shift (a n : Z) :
  0 <= n -> (inject_Z (a * 2 ^ n) == inject_Z a * Qpower 2 n)%Q.
Proof.
  intros Hn. rewrite inject_Z_mult, Zpower_Qpower by assumption. reflexivity.
Qed.

(** The float of [v * 2^e] is finite and stands for exactly that number. *)
Lemma canon_value (v e : Z) :
  small prec v -> in_range prec emax e ->
  is_finite (canon prec emax v e) = true /\
  (SF2Q (canon prec emax v e) == inject_Z v * Qpower 2 e)%Q.
Proof.
  intros Hs He. destruct (Z.eq_dec v 0) as [->|Hv].
  - split; [reflexivity|]. simpl. ring.
  - rewrite canon_finite by assumption. split; [reflexivity|].
    pose proof (small_digits Hv Hs) as Hd.
    set (m := Z.to_pos (Z.abs v)) in *. set (d := Zpos (digits2_pos m)) in *.
    unfold SF2Q.
    assert (Hm : cond_Zopp (v <? 0) (Zpos (pshl m (prec - d))) = v * 2 ^ (prec - d)).
    { rewrite pshl_Z by lia. unfold m. rewrite Z2Pos.id by lia.
      destruct (Z.ltb_spec v 0); simpl; lia. }
    rewrite Hm, inject_Z_shift by lia.
    rewrite <- Qmult_assoc, <- Qpower2_add.
    replace (prec - d + (d + e - prec)) with e by lia. reflexivity.
Qed.

End Format.

(** ** Tile decoder *)

Lemma small32 (v : Z) : Z.abs v < 16777216 -> small F32.prec v.
Proof. exact (fun H => H). Qed.

Lemma in_range32 (e : Z) : -126 <= e <= 104 -> in_range F32.prec F32.emax e.
Proof. unfold in_range, emin, F32.prec, F32.emax. lia. Qed.

Lemma prec32_pos : 0 < F32.prec.
Proof. reflexivity. Qed.

Ltac float32_side := try apply small32; try apply in_range32; lia.

(** [r * 256.0] is exact for a channel value: checked on the 256 values. *)
Lemma mul_256 (r : Z) :
  channel r ->
  F32.mul (F32.of_Z r) (F32.of_Z 256) = canon F32.prec F32.emax (r * 256) 0.
Proof.
  intros Hr. apply sf_eqb_eq.
  apply (forall_below_spec 256
           (fun r => sf_eqb (F32.mul (F32.of_Z r) (F32.of_Z 256))
                            (canon F32.prec F32.emax (r * 256) 0)));
    [vm_compute; reflexivity | exact Hr].
Qed.

(** [b / 256.0] is exact for a channel value: checked on the 256 values. *)
Lemma div_256 (b : Z) :
  channel b ->
  F32.div (F32.of_Z b) (F32.of_Z 256) = canon F32.prec F32.emax b (-8).
Proof.
  intros Hb. apply sf_eqb_eq.
  apply (forall_below_spec 256
           (fun b => sf_eqb (F32.div (F32.of_Z b) (F32.of_Z 256))
                            (canon F32.prec F32.emax b (-8))));
    [vm_compute; reflexivity | exact Hb].
Qed.

(** The decoded value is the [float32] of
    [(r * 65536 + g * 256 + b - 8388608) / 256]. *)
Lemma decode_pixel_canon (r g b : Z) :
  channel r -> channel g -> channel b ->
  decode_pixel r g b
  = canon F32.prec F32.emax (r * 65536 + g * 256 + b - 8388608) (-8).
Proof.
  unfold channel. intros Hr Hg Hb. unfold decode_pixel.
  rewrite mul_256, div_256 by assumption.
  change (F32.of_Z g) with (canon F32.prec F32.emax g 0).
  unfold F32.add, F32.sub.
  rewrite (canon_add prec32_pos) by float32_side.
  rewrite <- (canon_shift prec32_pos (v := r * 256 + g) (e := 0) (k := 8))
    by float32_side.
  change (0 - 8) with (-8).
  rewrite (canon_add prec32_pos) by float32_side.
  change (F32.of_Z 32768) with (canon F32.prec F32.emax 32768 0).
  rewrite <- (canon_shift prec32_pos (v := 32768) (e := 0) (k := 8))
    by float32_side.
  change (0 - 8) with (-8).
  rewrite (canon_sub prec32_pos) by float32_side.
  f_equal. lia.
Qed.

Lemma decode_pixel_value (r g b : Z) :
  channel r -> channel g -> channel b ->
  is_finite (decode_pixel r g b) = true /\
  (SF2Q (decode_pixel r g b)
   == inject_Z r * 256 + inject_Z g + inject_Z b / 256 - 32768)%Q.
Proof.
  intros Hr Hg Hb. rewrite decode_pixel_canon by assumption.
  unfold channel in *.
  destruct (@canon_value F32.prec F32.emax prec32_pos
              (r * 65536 + g * 256 + b - 8388608) (-8)) as [Hfin Hval];
    [float32_side..|].
  split; [exact Hfin|]. rewrite Hval.
  unfold Z.sub. rewrite !inject_Z_plus, !inject_Z_mult, inject_Z_opp.
  change (Qpower 2 (-8)) with (1 # 256)%Q.
  change (inject_Z 65536) with (65536 # 1)%Q.
  change (inject_Z 256) with (256 # 1)%Q.
  change (inject_Z 8388608) with (8388608 # 1)%Q.
  field.
Qed.

(** C3.  For every pixel of every tile image, with 8-bit channel values
    (R, G, B), the decoded elevation is a finite [float32] that stands for
    exactly R * 256 + G + B / 256 - 32768: no rounding occurs.  In particular
    (1, 0, 0) decodes to -32512, (0, 0, 0) to -32768 and (128, 0, 0) to 0. *)
Theorem decode_terrarium_exact (png_image : image) (i j : Z) :
  let p := img_px png_image i j in
  channel (red p) -> channel (green p) -> channel (blue p) ->
  let elev := cell (decode_terrarium png_image) i j in
  is_finite elev = true /\
  (SF2Q elev
   == inject_Z (red p) * 256 + inject_Z (green p) + inject_Z (blue p) / 256 - 32768)%Q /\
  decode_pixel 1 0 0 = F32.of_Z (-32512) /\
  decode_pixel 0 0 0 = F32.of_Z (-32768) /\
  decode_pixel 128 0 0 = F32.of_Z 0.
Proof.
  intros p Hr Hg Hb elev.
  destruct (decode_pixel_value Hr Hg Hb) as [Hfin Hval].
  repeat split; try assumption; vm_compute; reflexivity.
Qed.

Lemma decode_terrarium_exact_witness :
  let png_image := Image 256 256 (fun i j => RGBA 12 (i + 34) (j + 56) 255) in
  let elev := cell (decode_terrarium png_image) 0 0 in
  is_finite elev = true /\
  (SF2Q elev == inject_Z 12 * 256 + inject_Z 34 + inject_Z 56 / 256 - 32768)%Q /\
  decode_pixel 1 0 0 = F32.of_Z (-32512) /\
  decode_pixel 0 0 0 = F32.of_Z (-32768) /\
  decode_pixel 128 0 0 = F32.of_Z 0.
Proof.
  intros png_image elev.
  apply (decode_terrarium_exact png_image 0 0); simpl; unfold channel; lia.
Defined.

(** ** Level planner *)

(** minE = 10, maxE = 47, interval = 10: levels 10, 20, 30, 40, 50. *)
Lemma contour_levels_10_47_10 :
  contour_levels (F64.of_Z 10) (F64.of_Z 47) (F64.of_Z 10)
  = Ok (map F64.of_Z [10; 20; 30; 40; 50]).
Proof. vm_compute. reflexivity. Qed.

(** minE = 0, maxE = 150 and any requested interval [<= 0]: the interval
    becomes 10.0 and the levels are 0, 10, ..., 150. *)
Lemma contour_levels_auto_0_150 (interval : spec_float) :
  SFleb interval (F64.of_Z 0) = true ->
  effective_interval (F64.of_Z 0) (F64.of_Z 150) interval = F64.of_Z 10 /\
  contour_levels (F64.of_Z 0) (F64.of_Z 150) interval
  = Ok (map (fun i => F64.of_Z (10 * i)) [0; 1; 2; 3; 4; 5; 6; 7; 8; 9; 10; 11; 12; 13; 14; 15]).
Proof.
  intros H.
  assert (E : effective_interval (F64.of_Z 0) (F64.of_Z 150) interval = F64.of_Z 10)
    by (unfold effective_interval; rewrite H; vm_compute; reflexivity).
  split; [exact E|].
  unfold contour_levels. rewrite E. vm_compute. reflexivity.
Qed.

(** C2 (failing input).  For a raster whose finite elevations span
    [1.0, 1.25] and the requested interval 0.1, the planner computes
    start = 1.0 and stop = 13 * 0.1 = 1.3, but [np.arange] returns five
    levels, not the four of the closed sequence from start to stop: the
    quotient ((stop + interval) - start) / interval rounds to a double just
    above 4, so the length is 5, and the last level (1.4000000000000004)
    lies above stop, and even above the bound stop + interval given to
    [np.arange]. *)
Theorem contour_levels_overshoot :
  let elev_resized :=
    [F32.of_Z 1; S754_nan; F32.div (F32.of_Z 5) (F32.of_Z 4)] in
  let interval := F64.dec 1 1 in
  let stop := F64.dec 13 1 in
  let beyond := S754_finite false 6305039478318696 (-52) in
  level_start (F64.of_Z 1) interval = Ok (F64.of_Z 1) /\
  level_stop (F64.dec 125 2) interval = Ok stop /\
  plan_levels elev_resized interval
  = Ok [F64.of_Z 1; F64.dec 11 1;
        S754_finite false 5404319552844596 (-52);
        S754_finite false 5854679515581646 (-52);
        beyond] /\
  SFltb stop beyond = true /\
  SFltb (F64.add stop interval) beyond = true.
Proof.
  intros elev_resized interval stop beyond.
  split; [vm_compute; reflexivity|].
  split; [vm_compute; reflexivity|].
  split; [vm_compute; reflexivity|].
  split; vm_compute; reflexivity.
Qed.

(** The automatic interval overshoots in the same way: minE = 665.5,
    maxE = 2177.5 and a requested interval of 0 give the interval 100.8,
    start = 604.8 and stop = 2217.6, a closed sequence of 17 levels; the
    planner returns 18, the last (about 2318.4) above stop. *)
Lemma auto_interval_overshoot :
  let min_e := F64.div (F64.of_Z 1331) (F64.of_Z 2) in
  let max_e := F64.div (F64.of_Z 4355) (F64.of_Z 2) in
  let interval := effective_interval min_e max_e (F64.of_Z 0) in
  interval = F64.dec 1008 1 /\
  level_start min_e interval = Ok (F64.dec 6048 1) /\
  level_stop max_e interval = Ok (F64.dec 22176 1) /\
  exists levels,
    contour_levels min_e max_e (F64.of_Z 0) = Ok levels /\
    length levels = 18%nat /\
    SFltb (F64.dec 22176 1) (last levels S754_nan) = true.
Proof.
  intros min_e max_e interval.
  split; [vm_compute; reflexivity|].
  split; [vm_compute; reflexivity|].
  split; [vm_compute; reflexivity|].
  eexists. split; [vm_compute; reflexivity|].
  split; vm_compute; reflexivity.
Qed.

(** ** Zoom selection *)

(** Of two positive thresholds, the one with the smaller exponent is exceeded
    whenever the other is. *)
Lemma gt_weaken (m1 m2 : positive) (e1 e2 : Z) (a : spec_float) :
  e2 < e1 ->
  gt a (S754_finite false m1 e1) = true -> gt a (S754_finite false m2 e2) = true.
Proof.
  intros He. unfold gt, SFltb, SFcompare.
  destruct a as [s|s| |s m e]; try discriminate; try (destruct s; intros H; exact H).
  destruct s; [discriminate|].
  destruct (Z.compare_spec e1 e); destruct (Z.compare_spec e2 e);
    try reflexivity; try discriminate; try lia.
Qed.

(** C9.  For every bounding box, with areaSize = max(lonSpan, latSpan), the
    zoom is 8 exactly when areaSize > 2.0, 9 when 1.0 < areaSize and not
    areaSize > 2.0, 10 for the band above 0.5, 11 above 0.2, 12 above 0.1,
    13 above 0.05, and 14 otherwise. *)
Theorem select_zoom_thresholds (b : bbox64) :
  let a := area_size b in
  let z := select_zoom b in
  a = py_fmax (F64.sub (snd (fst b)) (fst (fst (fst b))))
              (F64.sub (snd b) (snd (fst (fst b)))) /\
  (z = 8 <-> gt a (F64.of_Z 2) = true) /\
  (z = 9 <-> gt a (F64.of_Z 1) = true /\ gt a (F64.of_Z 2) = false) /\
  (z = 10 <-> gt a (F64.dec 5 1) = true /\ gt a (F64.of_Z 1) = false) /\
  (z = 11 <-> gt a (F64.dec 2 1) = true /\ gt a (F64.dec 5 1) = false) /\
  (z = 12 <-> gt a (F64.dec 1 1) = true /\ gt a (F64.dec 2 1) = false) /\
  (z = 13 <-> gt a (F64.dec 5 2) = true /\ gt a (F64.dec 1 1) = false) /\
  (z = 14 <-> gt a (F64.dec 5 2) = false).
Proof.
  intros a z.
  split; [destruct b as [[[min_lon min_lat] max_lon] max_lat]; reflexivity|].
  pose proof (@gt_weaken 4503599627370496 4503599627370496 (-51) (-52) a eq_refl) as H21.
  pose proof (@gt_weaken 4503599627370496 4503599627370496 (-52) (-53) a eq_refl) as H10.
  pose proof (@gt_weaken 4503599627370496 7205759403792794 (-53) (-55) a eq_refl) as H05.
  pose proof (@gt_weaken 7205759403792794 7205759403792794 (-55) (-56) a eq_refl) as H02.
  pose proof (@gt_weaken 7205759403792794 7205759403792794 (-56) (-57) a eq_refl) as H01.
  change (S754_finite false 4503599627370496 (-51)) with (F64.of_Z 2) in *.
  change (S754_finite false 4503599627370496 (-52)) with (F64.of_Z 1) in *.
  change (S754_finite false 4503599627370496 (-53)) with (F64.dec 5 1) in *.
  change (S754_finite false 7205759403792794 (-55)) with (F64.dec 2 1) in *.
  change (S754_finite false 7205759403792794 (-56)) with (F64.dec 1 1) in *.
  change (S754_finite false 7205759403792794 (-57)) with (F64.dec 5 2) in *.
  unfold z, select_zoom, zoom_of_area. fold a.
  destruct (gt a (F64.of_Z 2)); destruct (gt a (F64.of_Z 1));
    destruct (gt a (F64.dec 5 1)); destruct (gt a (F64.dec 2 1));
    destruct (gt a (F64.dec 1 1)); destruct (gt a (F64.dec 5 2));
    try (specialize (H21 eq_refl)); try (specialize (H10 eq_refl));
    try (specialize (H05 eq_refl)); try (specialize (H02 eq_refl));
    try (specialize (H01 eq_refl)); try discriminate;
    repeat split; intros; try lia; try discriminate; try tauto;
    try (destruct H; discriminate).
Qed.

(** A 3 x 1 degree box gets zoom 8, and the box from (-1.5, 50.8) to
    (-1.4, 50.85) zoom 12: its longitude span, -1.4 - (-1.5), is the double
    just above 0.1. *)
Example select_zoom_examples :
  select_zoom (F64.of_Z 0, F64.of_Z 0, F64.of_Z 3, F64.of_Z 1) = 8 /\
  select_zoom (F64.dec (-15) 1, F64.dec 508 1, F64.dec (-14) 1, F64.dec 5085 2) = 12 /\
  select_zoom (F64.of_Z 0, F64.of_Z 0, F64.dec 1 2, F64.dec 1 2) = 14 /\
  select_zoom (S754_nan, F64.of_Z 0, F64.of_Z 1, F64.of_Z 1) = 14.
Proof. repeat split; vm_compute; reflexivity. Qed.

(** ** Projector *)

Section ProjectorProofs.
Local Open Scope R_scope.

Lemma clamp_min_max (lo hi x : R) :
  lo <= hi -> Rmin (Rmax x lo) hi = clamp lo hi x.
Proof.
  intros Hlh. unfold clamp, Rmin, Rmax.
  destruct (Rlt_dec x lo); destruct (Rle_dec x lo); try lra;
    destruct (Rlt_dec hi x); destruct (Rle_dec _ hi); try lra.
Qed.

Lemma clamp_bounds (lo hi x : R) : lo <= hi -> lo <= clamp lo hi x <= hi.
Proof.
  intros Hlh. unfold clamp.
  destruct (Rlt_dec x lo); [lra|]. destruct (Rlt_dec hi x); lra.
Qed.


Lemma clamped_sin_spec (lat : R) :
  clamped_sin lat = clamp (-0.9999) 0.9999 (sin (lat * PI / 180)).
Proof.
  unfold clamped_sin, radians. rewrite clamp_min_max by lra.
  f_equal. f_equal. field.
Qed.

Lemma pixel_scale_spec (zoom : Z) : pixel_scale zoom = 256 * powerRZ 2 zoom.
Proof. reflexivity. Qed.

Lemma pixel_scale_pos (zoom : Z) : 0 < pixel_scale zoom.
Proof.
  rewrite pixel_scale_spec. apply Rmult_lt_0_compat; [lra|].
  apply powerRZ_lt. lra.
Qed.

(** Between the clamp bounds the ratio [(1 + s) / (1 - s)] is defined and
    positive. *)
Lemma ratio_bounds (s : R) :
  -0.9999 <= s <= 0.9999 ->
  1 - s <> 0 /\ / 19999 <= (1 + s) / (1 - s) <= 19999.
Proof.
  intros [Hl Hh]. assert (Hd : 0 < 1 - s) by lra.
  split; [lra|]. split.
  - apply Rmult_le_reg_r with (1 - s); [exact Hd|].
    unfold Rdiv. rewrite Rmult_assoc, Rinv_l by lra. lra.
  - apply Rmult_le_reg_r with (1 - s); [exact Hd|].
    unfold Rdiv. rewrite Rmult_assoc, Rinv_l by lra. lra.
Qed.

Lemma py_div_ok (a b : R) : b <> 0 -> py_div a b = Ok (a / b).
Proof. intros H. unfold py_div. destruct (Req_dec_T b 0); [contradiction|reflexivity]. Qed.

Lemma py_log_ok (a : R) : 0 < a -> py_log a = Ok (ln a).
Proof. intros H. unfold py_log. destruct (Rle_dec a 0); [lra|reflexivity]. Qed.

(** The Projector never raises, and returns the specified pair. *)
Lemma lonlat_to_global_pixel_ok (lon lat : R) (zoom : Z) :
  lonlat_to_global_pixel lon lat zoom = Ok (project_spec lon lat zoom).
Proof.
  unfold lonlat_to_global_pixel, project_spec.
  rewrite clamped_sin_spec.
  set (s := clamp (-0.9999) 0.9999 (sin (lat * PI / 180))).
  destruct (@ratio_bounds s) as [Hd [Hlo Hhi]].
  { apply clamp_bounds. lra. }
  rewrite py_div_ok by exact Hd. simpl.
  rewrite py_log_ok by lra. simpl.
  reflexivity.
Qed.



Lemma clamp_inside (lo hi x : R) : lo <= x <= hi -> clamp lo hi x = x.
Proof.
  intros [Hl Hh]. unfold clamp.
  destruct (Rlt_dec x lo); [lra|]. destruct (Rlt_dec hi x); [lra|reflexivity].
Qed.

(** The clamp bound 0.9999 is the sine of about 89.19 degrees: at 85 degrees
    the sine is still below it. *)
Lemma sin_twelfth : 0.08 <= sin (1 / 12).
Proof.
  pose proof PI2_1 as HPI.
  destruct (SIN (1 / 12) ltac:(lra) ltac:(lra)) as [L _].
  unfold sin_lb, sin_approx, sin_term in L. simpl in L. lra.
Qed.

Lemma sin_5_degrees : 0.08 <= sin (PI / 36).
Proof.
  pose proof PI2_3_2 as H3. pose proof PI_4 as H4.
  apply Rle_trans with (sin (1 / 12)); [exact sin_twelfth|].
  apply sin_incr_1; lra.
Qed.

Lemma sin_85_degrees : 0 <= sin (85 * PI / 180) <= 0.9999.
Proof.
  pose proof PI2_3_2 as H3. pose proof PI_4 as H4.
  replace (85 * PI / 180) with (PI / 2 - PI / 36) by field.
  rewrite sin_shift.
  pose proof (sin2_cos2 (PI / 36)) as H. unfold Rsqr in H.
  pose proof sin_5_degrees as Hs.
  assert (Hc : 0 <= cos (PI / 36)) by (apply cos_ge_0; lra).
  split; [exact Hc|]. nra.
Qed.

(** Within the Web Mercator latitude range of the data model the clamp does
    nothing. *)
Lemma sin_within_clamp (lat : R) :
  -85 <= lat <= 85 -> -0.9999 <= sin (lat * PI / 180) <= 0.9999.
Proof.
  intros [Hl Hh]. pose proof PI_RGT_0 as Hpi.
  destruct sin_85_degrees as [_ H85].
  assert (Hm : sin (-85 * PI / 180) = - sin (85 * PI / 180)).
  { replace (-85 * PI / 180) with (- (85 * PI / 180)) by field. apply sin_neg. }
  split.
  - apply Rle_trans with (sin (-85 * PI / 180)); [lra|].
    apply sin_incr_1; nra.
  - apply Rle_trans with (sin (85 * PI / 180)); [|lra].
    apply sin_incr_1; nra.
Qed.





(** Monotonicity of the projection. *)
Lemma project_x_increasing (lon1 lon2 lat1 lat2 : R) (zoom : Z) :
  lon1 < lon2 ->
  fst (project_spec lon1 lat1 zoom) < fst (project_spec lon2 lat2 zoom).
Proof.
  intros H. unfold project_spec. cbn [fst]. rewrite <- pixel_scale_spec.
  pose proof (pixel_scale_pos zoom) as Hs.
  apply Rmult_lt_compat_r; [assumption|]. lra.
Qed.




Lemma ratio_increasing (s t : R) :
  -0.9999 <= s -> s < t -> t <= 0.9999 -> (1 + s) / (1 - s) < (1 + t) / (1 - t).
Proof.
  intros Hs Hst Ht.
  apply Rmult_lt_reg_r with ((1 - s) * (1 - t)); [nra|].
  replace ((1 + s) / (1 - s) * ((1 - s) * (1 - t))) with ((1 + s) * (1 - t)) by (field; lra).
  replace ((1 + t) / (1 - t) * ((1 - s) * (1 - t))) with ((1 + t) * (1 - s)) by (field; lra).
  nra.
Qed.

(** Within [-85, 85] degrees, north is strictly up. *)
Lemma project_y_strictly_decreasing (lon1 lon2 lat1 lat2 : R) (zoom : Z) :
  -85 <= lat1 -> lat1 < lat2 -> lat2 <= 85 ->
  snd (project_spec lon2 lat2 zoom) < snd (project_spec lon1 lat1 zoom).
Proof.
  intros H1 H12 H2. unfold project_spec. cbn [snd]. rewrite <- pixel_scale_spec.
  pose proof (pixel_scale_pos zoom) as Hs.
  pose proof PI_RGT_0 as Hpi.
  pose proof (@sin_within_clamp lat1 ltac:(lra)) as B1.
  pose proof (@sin_within_clamp lat2 ltac:(lra)) as B2.
  rewrite !clamp_inside by assumption.
  assert (Hsin : sin (lat1 * PI / 180) < sin (lat2 * PI / 180))
    by (apply sin_increasing_1; nra).
  set (s := sin (lat1 * PI / 180)) in *. set (t := sin (lat2 * PI / 180)) in *.
  assert (Hr : (1 + s) / (1 - s) < (1 + t) / (1 - t)) by (apply ratio_increasing; lra).
  destruct (@ratio_bounds s) as [_ [Hlo _]]; [lra|].
  assert (Hl : ln ((1 + s) / (1 - s)) < ln ((1 + t) / (1 - t)))
    by (apply ln_increasing; lra).
  apply Rmult_lt_compat_r; [lra|].
  assert (Hq : 0 < / (4 * PI)) by (apply Rinv_0_lt_compat; lra).
  unfold Rdiv. nra.
Qed.

(** ** Crop window *)

Lemma floor_ceil_order (x y : R) (n : Z) :
  0 <= x -> x <= y -> y <= IZR n ->
  (0 <= Zfloor x)%Z /\ (Zfloor x <= Zceil y)%Z /\ (Zceil y <= n)%Z /\
  (x < y -> (Zfloor x < Zceil y)%Z).
Proof.
  intros Hx Hxy Hy.
  pose proof (Zfloor_bound x) as [Fx1 Fx2].
  pose proof (Zceil_bound y) as [Cy1 Cy2].
  repeat split.
  - apply Zfloor_lub. exact Hx.
  - apply le_IZR. lra.
  - assert (H : (Zceil y < n + 1)%Z) by (apply lt_IZR; rewrite plus_IZR; lra). lia.
  - intros Hlt. apply lt_IZR. lra.
Qed.

Lemma slice_len_inside (n lo hi : Z) :
  (0 <= lo <= n)%Z -> (0 <= hi <= n)%Z -> slice_len n lo hi = Z.max 0 (hi - lo).
Proof.
  intros Hlo Hhi. unfold slice_len, slice_bound.
  destruct (Z.ltb_spec lo 0); destruct (Z.ltb_spec hi 0); lia.
Qed.

Lemma crop_window_unfold (b : bbox) (zoom w h ox oy : Z) :
  crop_window b zoom w h ox oy
  = let '(l, t, r, bt) := crop_bounds b zoom w h ox oy in
    if (slice_len h t bt * slice_len w l r =? 0)%Z
    then Raise EmptyCrop else Ok (l, t, r, bt).
Proof.
  destruct b as [[[min_lon min_lat] max_lon] max_lat].
  unfold crop_window, crop_bounds, bbox_corners.
  rewrite !lonlat_to_global_pixel_ok.
  destruct (project_spec min_lon max_lat zoom) as [x0 y_top].
  destruct (project_spec max_lon min_lat zoom) as [x1 y_bottom].
  reflexivity.
Qed.

(** The window of a covered box whose corners are in order. *)
Lemma crop_bounds_inside (b : bbox) (zoom w h ox oy : Z) :
  covers b zoom w h ox oy ->
  (let '(x0, y_top, x1, y_bottom) := bbox_corners b zoom in
   x0 <= x1 /\ y_top <= y_bottom) ->
  let '(l, t, r, bt) := crop_bounds b zoom w h ox oy in
  (0 <= l <= r)%Z /\ (r <= w)%Z /\ (0 <= t <= bt)%Z /\ (bt <= h)%Z /\
  (crop_window b zoom w h ox oy = Raise EmptyCrop <-> window_area (l, t, r, bt) = 0%Z) /\
  (window_area (l, t, r, bt) <> 0%Z -> crop_window b zoom w h ox oy = Ok (l, t, r, bt)).
Proof.
  intros Hc Ho. rewrite crop_window_unfold.
  unfold covers, crop_bounds in *.
  destruct (bbox_corners b zoom) as [[[x0 y_top] x1] y_bottom].
  destruct Hc as (C1 & C2 & C3 & C4). destruct Ho as [O1 O2].
  rewrite plus_IZR in C2, C4.
  destruct (@floor_ceil_order (x0 - IZR ox) (x1 - IZR ox) w) as (X1 & X2 & X3 & _); try lra.
  destruct (@floor_ceil_order (y_top - IZR oy) (y_bottom - IZR oy) h) as (Y1 & Y2 & Y3 & _); try lra.
  rewrite (Z.max_r 0 (Zfloor (x0 - IZR ox))) by lia.
  rewrite (Z.max_r 0 (Zfloor (y_top - IZR oy))) by lia.
  rewrite (Z.min_r w) by lia. rewrite (Z.min_r h) by lia.
  set (l := Zfloor (x0 - IZR ox)) in *. set (r := Zceil (x1 - IZR ox)) in *.
  set (t := Zfloor (y_top - IZR oy)) in *. set (bt := Zceil (y_bottom - IZR oy)) in *.
  rewrite !slice_len_inside by lia.
  unfold window_area.
  repeat split; try lia.
  - destruct (Z.eqb_spec (Z.max 0 (bt - t) * Z.max 0 (r - l)) 0) as [E|E];
      [intros _; nia | discriminate].
  - intros E. destruct (Z.eqb_spec (Z.max 0 (bt - t) * Z.max 0 (r - l)) 0) as [E'|E'];
      [reflexivity | exfalso; apply E'; nia].
  - intros E. destruct (Z.eqb_spec (Z.max 0 (bt - t) * Z.max 0 (r - l)) 0) as [E'|E'];
      [exfalso; apply E; nia | reflexivity].
Qed.




(** With the coverage the Tile Resolver guarantees, the defensive check never
    fires: the window of a valid bounding box has positive area. *)
Lemma crop_window_never_empty (b : bbox) (zoom w h ox oy : Z) :
  valid_bbox b -> covers b zoom w h ox oy ->
  exists l t r bt,
    crop_window b zoom w h ox oy = Ok (l, t, r, bt) /\
    (0 <= l < r)%Z /\ (r <= w)%Z /\ (0 <= t < bt)%Z /\ (bt <= h)%Z.
Proof.
  intros Hv Hc.
  pose proof (@crop_bounds_inside b zoom w h ox oy Hc) as Hin.
  unfold covers, crop_bounds in *.
  destruct b as [[[min_lon min_lat] max_lon] max_lat].
  unfold valid_bbox in Hv. destruct Hv as (V1 & V2 & V3 & V4 & V5 & V6).
  pose proof (@project_x_increasing min_lon max_lon max_lat min_lat zoom V1) as Hx.
  pose proof (@project_y_strictly_decreasing max_lon min_lon min_lat max_lat zoom
                V5 V2 V6) as Hy.
  unfold bbox_corners in *.
  set (x0 := fst (project_spec min_lon max_lat zoom)) in *.
  set (y_top := snd (project_spec min_lon max_lat zoom)) in *.
  set (x1 := fst (project_spec max_lon min_lat zoom)) in *.
  set (y_bottom := snd (project_spec max_lon min_lat zoom)) in *.
  specialize (Hin (conj (Rlt_le _ _ Hx) (Rlt_le _ _ Hy))).
  destruct Hc as (C1 & C2 & C3 & C4). rewrite plus_IZR in C2, C4.
  destruct (@floor_ceil_order (x0 - IZR ox) (x1 - IZR ox) w) as (X1 & _ & X3 & X4); try lra.
  destruct (@floor_ceil_order (y_top - IZR oy) (y_bottom - IZR oy) h) as (Y1 & _ & Y3 & Y4); try lra.
  specialize (X4 ltac:(lra)). specialize (Y4 ltac:(lra)).
  rewrite (Z.max_r 0 (Zfloor (x0 - IZR ox))) in Hin by lia.
  rewrite (Z.max_r 0 (Zfloor (y_top - IZR oy))) in Hin by lia.
  rewrite (Z.min_r w) in Hin by lia. rewrite (Z.min_r h) in Hin by lia.
  destruct Hin as (_ & _ & _ & _ & _ & Hok).
  eexists; eexists; eexists; eexists. split; [apply Hok; unfold window_area; nia|].
  lia.
Qed.

Lemma ln_3_lt_2 : ln 3 < 2.
Proof.
  rewrite <- (ln_exp 2). apply ln_increasing; [lra|].
  pose proof (exp_ineq1 2 ltac:(lra)). lra.
Qed.

Lemma sample_bbox_valid : valid_bbox (0, 0, 90, 30).
Proof. unfold valid_bbox. lra. Qed.

Lemma sample_bbox_covered : covers (0, 0, 90, 30) 0 256 256 0 0.
Proof.
  unfold covers, bbox_corners, project_spec. cbn [fst snd].
  replace (30 * PI / 180) with (PI / 6) by field.
  replace (0 * PI / 180) with 0 by field.
  rewrite sin_PI6, sin_0.
  assert (E1 : clamp (-0.9999) 0.9999 (1 / 2) = 1 / 2).
  { unfold clamp. destruct (Rlt_dec (1 / 2) (-0.9999)); [lra|].
    destruct (Rlt_dec 0.9999 (1 / 2)); [lra|reflexivity]. }
  assert (E2 : clamp (-0.9999) 0.9999 0 = 0).
  { unfold clamp. destruct (Rlt_dec 0 (-0.9999)); [lra|].
    destruct (Rlt_dec 0.9999 0); [lra|reflexivity]. }
  rewrite E1, E2.
  replace ((1 + 1 / 2) / (1 - 1 / 2)) with 3 by field.
  replace ((1 + 0) / (1 - 0)) with 1 by field.
  rewrite ln_1. simpl powerRZ.
  pose proof ln_3_lt_2 as L. pose proof PI2_1 as P.
  assert (Hq : ln 3 / (4 * PI) < 0.5).
  { apply Rmult_lt_reg_r with (4 * PI); [lra|].
    unfold Rdiv. rewrite Rmult_assoc, Rinv_l by lra. lra. }
  change (IZR (0 + 256)) with 256.
  replace (0 / (4 * PI)) with 0 by (unfold Rdiv; ring).
  set (q := ln 3 / (4 * PI)) in *.
  repeat split; lra.
Qed.



(** ** Overlay mapper *)

Section Overlay.
Variables zoom ox oy crop_left crop_top : Z.
Variables scale_x scale_y : R.

Let f := mapped_point zoom ox oy crop_left crop_top scale_x scale_y.
Let run (lines : list (list (R * R))) :=
  scale_coordinates_to_output lines zoom ox oy crop_left crop_top scale_x scale_y.

Lemma map_point_ok (p : R * R) :
  map_point zoom ox oy crop_left crop_top scale_x scale_y p = Ok (f p).
Proof.
  destruct p as [lon lat]. unfold map_point. rewrite lonlat_to_global_pixel_ok.
  unfold f, mapped_point. cbn [fst snd]. simpl.
  destruct (project_spec lon lat zoom) as [gx gy]. reflexivity.
Qed.

Lemma mapM_map_point (line : list (R * R)) :
  Py.mapM (map_point zoom ox oy crop_left crop_top scale_x scale_y) line
  = Ok (map f line).
Proof.
  induction line as [|p line IH]; [reflexivity|].
  simpl. rewrite map_point_ok. simpl. rewrite IH. reflexivity.
Qed.

Lemma overlay_result (lines : list (list (R * R))) :
  run lines = Ok (map (map f) (filter long_enough lines)).
Proof.
  unfold run. induction lines as [|line lines IH]; [reflexivity|].
  cbn [scale_coordinates_to_output]. rewrite mapM_map_point. cbn [Py.bind].
  rewrite IH. cbn [Py.bind filter]. rewrite length_map. unfold long_enough.
  destruct (2 <=? length line)%nat; reflexivity.
Qed.

Lemma filter_map_lines (lines : list (list (R * R))) :
  filter long_enough (map (map f) lines) = map (map f) (filter long_enough lines).
Proof.
  induction lines as [|line lines IH]; [reflexivity|].
  cbn [map filter]. rewrite IH.
  assert (E : long_enough (map f line) = long_enough line)
    by (unfold long_enough; now rewrite length_map).
  rewrite E. destruct (long_enough line); reflexivity.
Qed.

Lemma mapped_lengths (lines : list (list (R * R))) :
  Forall2 (fun (o i : list (R * R)) => length o = length i) (map (map f) lines) lines.
Proof.
  induction lines as [|line lines IH]; constructor; [apply length_map | exact IH].
Qed.


Lemma overpass_lines_long (elements : list element) :
  filter long_enough (overpass_lines elements) = overpass_lines elements.
Proof.
  induction elements as [|el rest IH]; [reflexivity|].
  cbn [overpass_lines]. destruct (is_way (el_type el)); [|exact IH].
  destruct (el_geometry el) as [coords|]; [|exact IH].
  destruct (2 <=? length coords)%nat eqn:E; [|exact IH].
  cbn [filter]. unfold long_enough at 1. rewrite E, IH. reflexivity.
Qed.

(** C10.  The Overlay Mapper yields one output point per input point of each
    line it keeps: the result is the lines of at least 2 input points, in
    order, each mapped point by point.  So every output line has as many
    points as its input line, and a line of the input is in the output if
    and only if it has at least 2 points.  The lines [fetch_roads_overpass]
    builds all have at least 2 points, so none of them is dropped. *)
Theorem overlay_one_point_per_input_point (lines : list (list (R * R))) :
  exists out,
    run lines = Ok out /\
    out = map (map f) (filter long_enough lines) /\
    Forall2 (fun (o i : list (R * R)) => length o = length i)
            out (filter long_enough lines) /\
    (forall line, In line lines -> (In (map f line) out <-> (2 <= length line)%nat)) /\
    (forall elements,
        run (overpass_lines elements) = Ok (map (map f) (overpass_lines elements))).
Proof.
  exists (map (map f) (filter long_enough lines)).
  split; [apply overlay_result|]. split; [reflexivity|].
  split; [apply mapped_lengths|]. split.
  - intros line Hin. split.
    + intros Hm. apply in_map_iff in Hm. destruct Hm as (line' & E & Hf).
      apply filter_In in Hf. destruct Hf as [_ Hl]. unfold long_enough in Hl.
      apply Nat.leb_le in Hl.
      assert (El : length line' = length line)
        by (rewrite <- (length_map f line'), E; apply length_map).
      lia.
    + intros Hl. apply in_map. apply filter_In. split; [exact Hin|].
      unfold long_enough. apply Nat.leb_le. exact Hl.
  - intros elements. rewrite overlay_result, overpass_lines_long. reflexivity.
Qed.


(** C6, as the code has it.  The Overlay Mapper drops from its result
    exactly the lines that have fewer than 2 points after mapping, counting
    points, not distinct coordinates: a line of one point or none is
    dropped, and a 2-point line whose endpoints map to the same output
    coordinate is kept. *)
Theorem overlay_drops_short_lines (lines : list (list (R * R))) :
  run lines = Ok (filter long_enough (map (map f) lines)) /\
  (forall p, run [[p]] = Ok []) /\
  run [[]] = Ok [] /\
  (forall p, run [[p; p]] = Ok [[f p; f p]]).
Proof.
  split; [rewrite filter_map_lines; apply overlay_result|].
  split; [intros p; rewrite overlay_result; reflexivity|].
  split; [rewrite overlay_result; reflexivity|].
  intros p. rewrite overlay_result. reflexivity.
Qed.

End Overlay.

(** C6 fails as stated: the 2-point line from (0, 0) to (0, 0) collapses to
    one distinct point after mapping, and it is not dropped. *)
Lemma overlay_keeps_coincident_endpoints :
  exists q,
    scale_coordinates_to_output [[(0, 0); (0, 0)]] 0 0 0 0 0 1 1 = Ok [[q; q]] /\
    scale_coordinates_to_output [[(0, 0); (0, 0)]] 0 0 0 0 0 1 1 <> Ok [].
Proof.
  exists (mapped_point 0 0 0 0 0 1 1 (0, 0)).
  rewrite overlay_result. split; [reflexivity | discriminate].
Qed.

End ProjectorProofs.

(** ** Mosaic assembly *)

Lemma foldM_app (A S : Type) (body : S -> A -> result S) (l1 l2 : list A) (s : S) :
  Py.foldM body (l1 ++ l2) s = Py.bind (Py.foldM body l1 s) (Py.foldM body l2).
Proof.
  revert s. induction l1 as [|x l1 IH]; intros s; [reflexivity|].
  simpl. destruct (body s x) as [s'|e]; [apply IH | reflexivity].
Qed.

Lemma tile_eq (t t' : Tile) :
  tile_x t = tile_x t' -> tile_y t = tile_y t' -> t = t'.
Proof. destruct t, t'; simpl; intros -> ->; reflexivity. Qed.

Section MosaicProofs.

Variable fetch_image : Z -> Tile -> result image.
Variables zoom min_tx min_ty : Z.

Let body := place_tile fetch_image zoom min_tx min_ty.
Let oy (t : Tile) := (tile_y t - min_ty) * TILE_SIZE.
Let ox (t : Tile) := (tile_x t - min_tx) * TILE_SIZE.

(** The block of [t] in [m] holds the decoded image of [t]. *)
Let placed (m : raster) (t : Tile) : Prop :=
  exists img,
    fetch_image zoom t = Ok img /\
    forall i j, 0 <= i < TILE_SIZE -> 0 <= j < TILE_SIZE ->
      cell m (oy t + i) (ox t + j) = cell (decode_terrarium img) i j.

Lemma place_tile_cases (m : raster) (t : Tile) :
  (tile_fails fetch_image zoom t = false /\
   exists img, fetch_image zoom t = Ok img /\
     body m t = Ok {| rows := rows m; cols := cols m;
                      cell := fun i j =>
                        if in_block (oy t) (ox t) i j
                        then cell (decode_terrarium img) (i - oy t) (j - ox t)
                        else cell m i j |}) \/
  (tile_fails fetch_image zoom t = true /\ exists e, forall m', body m' t = Raise e).
Proof.
  unfold body, place_tile, tile_fails, paste.
  destruct (fetch_image zoom t) as [img|e]; simpl.
  - destruct ((img_h img =? TILE_SIZE) && (img_w img =? TILE_SIZE)).
    + left. split; [reflexivity|]. exists img. split; reflexivity.
    + right. split; [reflexivity|]. exists ShapeMismatch. reflexivity.
  - right. split; [reflexivity|]. exists e. reflexivity.
Qed.

Lemma foldM_is_ok (l : list Tile) (m : raster) :
  Py.is_ok (Py.foldM body l m) = forallb (fun t => negb (tile_fails fetch_image zoom t)) l.
Proof.
  revert m. induction l as [|t l IH]; intros m; [reflexivity|].
  simpl. destruct (place_tile_cases m t) as [[Hf (img & _ & ->)]|[Hf (e & He)]].
  - rewrite Hf. simpl. apply IH.
  - rewrite Hf, He. reflexivity.
Qed.


(** Two blocks that share a cell are the same block. *)
Lemma same_block (t t' : Tile) (i j : Z) :
  0 <= i < TILE_SIZE -> 0 <= j < TILE_SIZE ->
  in_block (oy t) (ox t) (oy t' + i) (ox t' + j) = true -> t' = t.
Proof.
  unfold in_block, oy, ox, TILE_SIZE. intros Hi Hj H.
  rewrite !andb_true_iff in H. destruct H as [[[H1 H2] H3] H4].
  apply Z.leb_le in H1, H3. apply Z.ltb_lt in H2, H4.
  apply tile_eq; lia.
Qed.

Lemma own_block (t : Tile) (i j : Z) :
  0 <= i < TILE_SIZE -> 0 <= j < TILE_SIZE ->
  in_block (oy t) (ox t) (oy t + i) (ox t + j) = true.
Proof.
  unfold in_block, TILE_SIZE. intros Hi Hj.
  rewrite !andb_true_iff. repeat split; try apply Z.leb_le; try apply Z.ltb_lt; lia.
Qed.

(** After a loop that ran to its end, the shape is unchanged and every tile
    of the list is in place. *)
Lemma foldM_placed (l : list Tile) :
  forall m0 m, Py.foldM body l m0 = Ok m ->
  rows m = rows m0 /\ cols m = cols m0 /\ forall t, In t l -> placed m t.
Proof.
  induction l as [|t l IH] using rev_ind; intros m0 m H.
  - simpl in H. injection H as <-. repeat split. intros t [].
  - rewrite foldM_app in H.
    destruct (Py.foldM body l m0) as [m1|e] eqn:E1; [|discriminate].
    destruct (IH m0 m1 E1) as (Hr & Hc & Hp).
    simpl in H.
    destruct (place_tile_cases m1 t) as [[_ (img & Hfetch & Hb)]|[_ (e & He)]];
      [|rewrite He in H; discriminate].
    rewrite Hb in H. simpl in H. injection H as <-.
    split; [exact Hr|]. split; [exact Hc|].
    intros t' Hin. apply in_app_or in Hin. destruct Hin as [Hin|[<-|[]]].
    + destruct (Hp t' Hin) as (img' & Hfetch' & Hcells).
      exists img'. split; [exact Hfetch'|]. intros i j Hi Hj. cbn [cell].
      destruct (in_block (oy t) (ox t) (oy t' + i) (ox t' + j)) eqn:Hblk.
      * assert (t' = t) by exact (@same_block t t' i j Hi Hj Hblk). subst t'.
        assert (img' = img) by congruence. subst img'.
        replace (oy t + i - oy t) with i by lia.
        replace (ox t + j - ox t) with j by lia. reflexivity.
      * apply Hcells; assumption.
    + exists img. split; [exact Hfetch|]. intros i j Hi Hj. cbn [cell].
      rewrite own_block by assumption.
      replace (oy t + i - oy t) with i by lia.
      replace (ox t + j - ox t) with j by lia. reflexivity.
Qed.


End MosaicProofs.



(** * Further properties *)

(** ** Tile decoder: range and losslessness *)

Lemma decode_pixel_scaled (r g b : Z) :
  channel r -> channel g -> channel b ->
  (SF2Q (decode_pixel r g b)
   == inject_Z (r * 65536 + g * 256 + b - 8388608) * (1 # 256))%Q.
Proof.
  intros Hr Hg Hb. rewrite decode_pixel_canon by assumption.
  unfold channel in *.
  destruct (@canon_value F32.prec F32.emax prec32_pos
              (r * 65536 + g * 256 + b - 8388608) (-8)) as [_ Hval];
    [float32_side..|].
  exact Hval.
Qed.

(** X1.  Decoded elevations lie in [-32768, 32768) metres, on the grid of
    multiples of 1/256. *)
Theorem decode_terrarium_range (png_image : image) (i j : Z) :
  let p := img_px png_image i j in
  channel (red p) -> channel (green p) -> channel (blue p) ->
  let elev := cell (decode_terrarium png_image) i j in
  (-32768 <= SF2Q elev)%Q /\ (SF2Q elev < 32768)%Q /\
  exists n : Z, -8388608 <= n <= 8388607 /\ (SF2Q elev == inject_Z n / 256)%Q.
Proof.
  intros p Hr Hg Hb elev.
  pose proof (decode_pixel_scaled Hr Hg Hb) as H.
  unfold channel in *.
  set (n := red p * 65536 + green p * 256 + blue p - 8388608) in *.
  assert (Hn : -8388608 <= n <= 8388607) by (unfold n; lia).
  change (SF2Q elev == inject_Z n * (1 # 256))%Q in H.
  split; [|split].
  - rewrite H. unfold Qle. simpl. lia.
  - rewrite H. unfold Qlt. simpl. lia.
  - exists n. split; [exact Hn|]. rewrite H. unfold Qdiv. reflexivity.
Qed.

Lemma decode_terrarium_range_example :
  let png_image := Image 256 256 (fun i j => RGBA 255 255 255 0) in
  let elev := cell (decode_terrarium png_image) 3 4 in
  (-32768 <= SF2Q elev)%Q /\ (SF2Q elev < 32768)%Q /\
  exists n : Z, -8388608 <= n <= 8388607 /\ (SF2Q elev == inject_Z n / 256)%Q.
Proof.
  intros png_image elev.
  apply (decode_terrarium_range png_image 3 4); simpl; unfold channel; lia.
Defined.

(** X2.  The decoding loses nothing: two pixels with the same elevation have the
    same red, green and blue channels. *)
Theorem decode_terrarium_lossless (r g b r' g' b' : Z) :
  channel r -> channel g -> channel b ->
  channel r' -> channel g' -> channel b' ->
  decode_pixel r g b = decode_pixel r' g' b' ->
  r = r' /\ g = g' /\ b = b'.
Proof.
  intros Hr Hg Hb Hr' Hg' Hb' E.
  pose proof (decode_pixel_scaled Hr Hg Hb) as H.
  pose proof (decode_pixel_scaled Hr' Hg' Hb') as H'.
  rewrite E, H' in H. unfold Qeq in H. simpl in H.
  unfold channel in *. lia.
Qed.

Lemma decode_terrarium_lossless_example :
  decode_pixel 1 2 3 = decode_pixel 1 2 3 /\ (1 = 1 /\ 2 = 2 /\ 3 = 3).
Proof.
  split; [reflexivity|].
  apply (@decode_terrarium_lossless 1 2 3 1 2 3); unfold channel; try lia.
  reflexivity.
Defined.

(** ** The order of floats *)

Lemma SFcompare_key (a b : spec_float) :
  is_nan a = false -> is_nan b = false ->
  exists c, SFcompare a b = Some c /\
            (c = Lt <-> key_lt (SFkey a) (SFkey b)) /\
            (c = Eq <-> SFkey a = SFkey b) /\
            (c = Gt <-> key_lt (SFkey b) (SFkey a)).
Proof.
  assert (Hcmp : forall x y c, (x ?= y) = c ->
            (c = Lt <-> x < y) /\ (c = Eq <-> x = y) /\ (c = Gt <-> y < x)).
  { intros x y c <-. destruct (Z.compare_spec x y); repeat split; intros; try discriminate; try reflexivity; lia. }
  destruct a as [sa|sa| |sa ma ea]; try discriminate;
  destruct b as [sb|sb| |sb mb eb]; try discriminate; intros _ _;
  try destruct sa; try destruct sb; cbn [SFcompare SFkey key_lt];
  try change (Pos.compare_cont Eq ma mb) with (Z.pos ma ?= Z.pos mb);
  try (eexists; split; [reflexivity|];
       repeat split; intros H; try discriminate H; try reflexivity;
       try (injection H; intros; lia); lia).
  - destruct (Hcmp ea eb _ eq_refl) as (E1 & E2 & E3).
    destruct (Hcmp (Z.pos ma) (Z.pos mb) _ eq_refl) as (M1 & M2 & M3).
    eexists; split; [reflexivity|].
    destruct (ea ?= eb); destruct (Z.pos ma ?= Z.pos mb); cbn [CompOpp];
      repeat split; intros H; try discriminate H; try reflexivity;
      try (injection H; intros); intuition (try discriminate; try lia; try congruence).
  - destruct (Hcmp ea eb _ eq_refl) as (E1 & E2 & E3).
    destruct (Hcmp (Z.pos ma) (Z.pos mb) _ eq_refl) as (M1 & M2 & M3).
    eexists; split; [reflexivity|].
    destruct (ea ?= eb); destruct (Z.pos ma ?= Z.pos mb); cbn [CompOpp];
      repeat split; intros H; try discriminate H; try reflexivity;
      try (injection H; intros); intuition (try discriminate; try lia; try congruence).
Qed.

Lemma SFltb_key (a b : spec_float) :
  is_nan a = false -> is_nan b = false ->
  (SFltb a b = true <-> key_lt (SFkey a) (SFkey b)).
Proof.
  intros Ha Hb. destruct (SFcompare_key a b Ha Hb) as (c & Hc & HLt & _ & _).
  unfold SFltb. rewrite Hc. rewrite <- HLt.
  destruct c; split; intros H; try discriminate; reflexivity.
Qed.

Lemma SFleb_key (a b : spec_float) :
  is_nan a = false -> is_nan b = false ->
  (SFleb a b = true <-> key_le (SFkey a) (SFkey b)).
Proof.
  intros Ha Hb. destruct (SFcompare_key a b Ha Hb) as (c & Hc & HLt & HEq & _).
  unfold SFleb, key_le. rewrite Hc, <- HLt, <- HEq.
  destruct c; split; intros H; try discriminate; try reflexivity;
    try (left; reflexivity); try (right; reflexivity).
  destruct H; discriminate.
Qed.

Lemma SFltb_not_nan (a b : spec_float) :
  SFltb a b = true -> is_nan a = false /\ is_nan b = false.
Proof.
  unfold SFltb. destruct a, b; simpl; try discriminate; split; reflexivity.
Qed.

Lemma SFleb_not_nan (a b : spec_float) :
  SFleb a b = true -> is_nan a = false /\ is_nan b = false.
Proof.
  unfold SFleb. destruct a, b; simpl; try discriminate; split; reflexivity.
Qed.

Lemma key_lt_trans (a b c : Z * Z * Z) : key_lt a b -> key_lt b c -> key_lt a c.
Proof.
  destruct a as [[a1 a2] a3], b as [[b1 b2] b3], c as [[c1 c2] c3].
  unfold key_lt. lia.
Qed.

Lemma key_lt_le_trans (a b c : Z * Z * Z) : key_lt a b -> key_le b c -> key_lt a c.
Proof.
  intros H [H'|<-]; [eapply key_lt_trans; eassumption | exact H].
Qed.


Lemma key_total (a b : Z * Z * Z) : key_lt a b \/ key_le b a.
Proof.
  destruct a as [[a1 a2] a3], b as [[b1 b2] b3]. unfold key_le, key_lt.
  destruct (Z.lt_trichotomy a1 b1) as [H|[H|H]];
  destruct (Z.lt_trichotomy a2 b2) as [H2|[H2|H2]];
  destruct (Z.lt_trichotomy a3 b3) as [H3|[H3|H3]];
    try (left; lia); try (right; left; lia); right; right; congruence.
Qed.


Lemma SFltb_leb_trans (a b c : spec_float) :
  SFltb a b = true -> SFleb b c = true -> SFltb a c = true.
Proof.
  intros H1 H2. destruct (SFltb_not_nan _ _ H1) as [Ha Hb].
  destruct (SFleb_not_nan _ _ H2) as [_ Hc].
  apply (SFltb_key _ _ Ha Hc).
  apply (SFltb_key _ _ Ha Hb) in H1. apply (SFleb_key _ _ Hb Hc) in H2.
  eapply key_lt_le_trans; eassumption.
Qed.


(** ** Level planner: what it raises *)

Lemma effective_interval_nonzero (min_e max_e interval : spec_float) (s : bool) :
  effective_interval min_e max_e interval <> S754_zero s.
Proof.
  unfold effective_interval. destruct (SFleb interval (F64.of_Z 0)) eqn:E.
  - unfold py_fmax.
    destruct (SFltb (F64.of_Z 1) (F64.div (F64.sub max_e min_e) (F64.of_Z 15))) eqn:L.
    + intros H. rewrite H in L. destruct s; vm_compute in L; discriminate.
    + intros H. vm_compute in H. discriminate.
  - intros ->. destruct s; vm_compute in E; discriminate.
Qed.

Lemma py_fdiv_nonzero (a b : spec_float) :
  (forall s, b <> S754_zero s) -> py_fdiv a b = Ok (F64.div a b).
Proof.
  intros H. unfold py_fdiv. destruct b; try reflexivity. exfalso. eapply H. reflexivity.
Qed.

Lemma py_floor_raises (f : spec_float) (e : exn) :
  py_floor f = Raise e -> e = NotANumber \/ e = OverflowError.
Proof. destruct f; simpl; intros H; inversion H; auto. Qed.

Lemma py_ceil_raises (f : spec_float) (e : exn) :
  py_ceil f = Raise e -> e = NotANumber \/ e = OverflowError.
Proof. destruct f; simpl; intros H; inversion H; auto. Qed.

Lemma contour_levels_raises (min_e max_e interval : spec_float) (e : exn) :
  contour_levels min_e max_e interval = Raise e -> e = NotANumber \/ e = OverflowError.
Proof.
  unfold contour_levels, level_start, level_stop, np_arange.
  pose proof (effective_interval_nonzero min_e max_e interval) as Hz.
  set (iv := effective_interval min_e max_e interval) in *.
  rewrite !py_fdiv_nonzero by exact Hz. cbn [Py.bind].
  destruct (py_floor (F64.div min_e iv)) as [n0|e0] eqn:F0;
    [|cbn [Py.bind]; intros H; inversion H; subst; eapply py_floor_raises; eassumption].
  cbn [Py.bind].
  destruct (py_ceil (F64.div max_e iv)) as [n1|e1] eqn:F1;
    [|cbn [Py.bind]; intros H; inversion H; subst; eapply py_ceil_raises; eassumption].
  cbn [Py.bind]. rewrite py_fdiv_nonzero by exact Hz. cbn [Py.bind].
  match goal with |- context [py_ceil ?q] => destruct (py_ceil q) as [n|e2] eqn:F2 end;
    cbn [Py.bind]; intros H; inversion H; subst.
  eapply py_ceil_raises; eassumption.
Qed.


Lemma filter_nil_iff (A : Type) (f : A -> bool) (l : list A) :
  filter f l = [] <-> forall x, In x l -> f x = false.
Proof.
  induction l as [|a l IH]; simpl; [tauto|].
  destruct (f a) eqn:E; split.
  - discriminate.
  - intros H. specialize (H a (or_introl eq_refl)). congruence.
  - intros H x [<-|Hx]; [exact E | apply IH; assumption].
  - intros H. apply IH. intros x Hx. apply H. right. exact Hx.
Qed.

(** X4.  The planner reports "no finite elevation" exactly when the raster holds
    no finite value (an empty raster, or only NaN and infinities). *)
Theorem plan_levels_no_finite (elev_resized : list spec_float) (interval : spec_float) :
  plan_levels elev_resized interval = Raise NoFiniteElevation
  <-> forall x, In x elev_resized -> is_finite x = false.
Proof.
  unfold plan_levels. rewrite <- filter_nil_iff.
  destruct (filter is_finite elev_resized) as [|v vs]; split; intros H;
    try reflexivity; try discriminate.
  destruct (contour_levels_raises _ _ _ H); discriminate.
Qed.


(** ** Level planner: the elevation range *)

Lemma is_finite_not_nan (x : spec_float) : is_finite x = true -> is_nan x = false.
Proof. destruct x; simpl; intros H; try discriminate; reflexivity. Qed.

Lemma py_fmin_cases (a b : spec_float) :
  is_nan a = false -> is_nan b = false ->
  (py_fmin a b = a \/ py_fmin a b = b) /\
  key_le (SFkey (py_fmin a b)) (SFkey a) /\ key_le (SFkey (py_fmin a b)) (SFkey b).
Proof.
  intros Ha Hb. unfold py_fmin. destruct (SFltb b a) eqn:E.
  - apply (SFltb_key _ _ Hb Ha) in E. repeat split; auto; [left; exact E | right; reflexivity].
  - repeat split; auto; [right; reflexivity|].
    destruct (key_total (SFkey b) (SFkey a)) as [H|H]; [|exact H].
    apply (SFltb_key _ _ Hb Ha) in H. congruence.
Qed.

Lemma py_fmax_cases (a b : spec_float) :
  is_nan a = false -> is_nan b = false ->
  (py_fmax a b = a \/ py_fmax a b = b) /\
  key_le (SFkey a) (SFkey (py_fmax a b)) /\ key_le (SFkey b) (SFkey (py_fmax a b)).
Proof.
  intros Ha Hb. unfold py_fmax. destruct (SFltb a b) eqn:E.
  - apply (SFltb_key _ _ Ha Hb) in E. repeat split; auto; [left; exact E | right; reflexivity].
  - repeat split; auto; [right; reflexivity|].
    destruct (key_total (SFkey a) (SFkey b)) as [H|H]; [|exact H].
    apply (SFltb_key _ _ Ha Hb) in H. congruence.
Qed.

Lemma key_le_trans (a b c : Z * Z * Z) : key_le a b -> key_le b c -> key_le a c.
Proof.
  intros [H|<-] H'; [left; eapply key_lt_le_trans; eassumption | exact H'].
Qed.

Lemma nanmin_spec (vs : list spec_float) :
  forall v, (forall x, In x (v :: vs) -> is_nan x = false) ->
  In (nanmin v vs) (v :: vs) /\
  forall x, In x (v :: vs) -> key_le (SFkey (nanmin v vs)) (SFkey x).
Proof.
  unfold nanmin. induction vs as [|w vs IH]; intros v Hn.
  - simpl. split; [left; reflexivity|]. intros x [<-|[]]. right. reflexivity.
  - cbn [fold_left].
    assert (Hv : is_nan v = false) by (apply Hn; left; reflexivity).
    assert (Hw : is_nan w = false) by (apply Hn; right; left; reflexivity).
    destruct (@py_fmin_cases v w Hv Hw) as (Hc & Lv & Lw).
    assert (Hm : is_nan (py_fmin v w) = false) by (destruct Hc as [->| ->]; assumption).
    destruct (IH (py_fmin v w)) as [Hin Hle].
    { intros x [<-|Hx]; [exact Hm | apply Hn; right; right; exact Hx]. }
    split.
    + destruct Hin as [Hin|Hin]; [|right; right; exact Hin].
      rewrite <- Hin. destruct Hc as [->| ->]; [left | right; left]; reflexivity.
    + intros x [<-|[<-|Hx]].
      * eapply key_le_trans; [apply Hle; left; reflexivity | exact Lv].
      * eapply key_le_trans; [apply Hle; left; reflexivity | exact Lw].
      * apply Hle. right. exact Hx.
Qed.

Lemma nanmax_spec (vs : list spec_float) :
  forall v, (forall x, In x (v :: vs) -> is_nan x = false) ->
  In (nanmax v vs) (v :: vs) /\
  forall x, In x (v :: vs) -> key_le (SFkey x) (SFkey (nanmax v vs)).
Proof.
  unfold nanmax. induction vs as [|w vs IH]; intros v Hn.
  - simpl. split; [left; reflexivity|]. intros x [<-|[]]. right. reflexivity.
  - cbn [fold_left].
    assert (Hv : is_nan v = false) by (apply Hn; left; reflexivity).
    assert (Hw : is_nan w = false) by (apply Hn; right; left; reflexivity).
    destruct (@py_fmax_cases v w Hv Hw) as (Hc & Lv & Lw).
    assert (Hm : is_nan (py_fmax v w) = false) by (destruct Hc as [->| ->]; assumption).
    destruct (IH (py_fmax v w)) as [Hin Hle].
    { intros x [<-|Hx]; [exact Hm | apply Hn; right; right; exact Hx]. }
    split.
    + destruct Hin as [Hin|Hin]; [|right; right; exact Hin].
      rewrite <- Hin. destruct Hc as [->| ->]; [left | right; left]; reflexivity.
    + intros x [<-|[<-|Hx]].
      * eapply key_le_trans; [exact Lv | apply Hle; left; reflexivity].
      * eapply key_le_trans; [exact Lw | apply Hle; left; reflexivity].
      * apply Hle. right. exact Hx.
Qed.

(** X5.  The elevation range the planner works from: [min_e] and [max_e] are
    finite values of the raster, no finite value of the raster is below
    [min_e] or above [max_e], and NaN cells play no part. *)
Theorem plan_levels_range (elev_resized : list spec_float) (v : spec_float)
    (vs : list spec_float) :
  filter is_finite elev_resized = v :: vs ->
  let min_e := nanmin v vs in
  let max_e := nanmax v vs in
  (forall interval, plan_levels elev_resized interval =
     contour_levels (F64.of_f32 min_e) (F64.of_f32 max_e) interval) /\
  In min_e elev_resized /\ In max_e elev_resized /\
  is_finite min_e = true /\ is_finite max_e = true /\
  SFleb min_e max_e = true /\
  forall x, In x elev_resized -> is_finite x = true ->
            SFleb min_e x = true /\ SFleb x max_e = true.
Proof.
  intros Hf min_e max_e.
  split; [intros interval; unfold plan_levels; rewrite Hf; reflexivity|].
  assert (Hall : forall x, In x (v :: vs) <-> In x elev_resized /\ is_finite x = true)
    by (intros x; rewrite <- Hf; apply filter_In).
  assert (Hn : forall x, In x (v :: vs) -> is_nan x = false)
    by (intros x Hx; apply is_finite_not_nan; apply Hall; exact Hx).
  destruct (@nanmin_spec vs v Hn) as [Imin Lmin].
  destruct (@nanmax_spec vs v Hn) as [Imax Lmax].
  fold min_e in Imin, Lmin. fold max_e in Imax, Lmax.
  pose proof (proj1 (Hall _) Imin) as [Emin Fmin].
  pose proof (proj1 (Hall _) Imax) as [Emax Fmax].
  repeat split; try assumption.
  - apply SFleb_key; [apply Hn; exact Imin | apply Hn; exact Imax |].
    apply Lmax. exact Imin.
  - apply SFleb_key; [apply Hn; exact Imin | apply is_finite_not_nan; assumption |].
    apply Lmin. apply Hall. split; assumption.
  - apply SFleb_key; [apply is_finite_not_nan; assumption | apply Hn; exact Imax |].
    apply Lmax. apply Hall. split; assumption.
Qed.

Lemma plan_levels_range_example :
  let elev_resized :=
    [S754_nan; F32.of_Z 7; F32.of_Z (-2); S754_infinity false; F32.of_Z 3] in
  nanmin (F32.of_Z 7) [F32.of_Z (-2); F32.of_Z 3] = F32.of_Z (-2) /\
  nanmax (F32.of_Z 7) [F32.of_Z (-2); F32.of_Z 3] = F32.of_Z 7 /\
  forall x, In x elev_resized -> is_finite x = true ->
    SFleb (F32.of_Z (-2)) x = true /\ SFleb x (F32.of_Z 7) = true.
Proof.
  intros elev_resized.
  split; [vm_compute; reflexivity|]. split; [vm_compute; reflexivity|].
  change (F32.of_Z (-2)) with (nanmin (F32.of_Z 7) [F32.of_Z (-2); F32.of_Z 3]) at 1.
  change (F32.of_Z 7) with (nanmax (F32.of_Z 7) [F32.of_Z (-2); F32.of_Z 3]) at 2.
  apply (@plan_levels_range elev_resized (F32.of_Z 7) [F32.of_Z (-2); F32.of_Z 3]).
  reflexivity.
Defined.

(** ** Zoom selection: range and monotonicity *)

Lemma gt_monotone (a a' c : spec_float) :
  SFleb a a' = true -> gt a c = true -> gt a' c = true.
Proof. unfold gt. intros Hle Hc. eapply SFltb_leb_trans; eassumption. Qed.

(** X6.  The zoom is always between 8 and 14, and of two boxes the one with the
    larger area never gets the finer zoom. *)
Theorem select_zoom_monotone (b b' : bbox64) :
  SFleb (area_size b) (area_size b') = true ->
  8 <= select_zoom b' /\ select_zoom b' <= select_zoom b /\ select_zoom b <= 14.
Proof.
  unfold select_zoom, zoom_of_area.
  set (a := area_size b). set (a' := area_size b').
  intros Hle.
  pose proof (@gt_monotone a a' (F64.of_Z 2) Hle) as H1.
  pose proof (@gt_monotone a a' (F64.of_Z 1) Hle) as H2.
  pose proof (@gt_monotone a a' (F64.dec 5 1) Hle) as H3.
  pose proof (@gt_monotone a a' (F64.dec 2 1) Hle) as H4.
  pose proof (@gt_monotone a a' (F64.dec 1 1) Hle) as H5.
  pose proof (@gt_monotone a a' (F64.dec 5 2) Hle) as H6.
  destruct (gt a (F64.of_Z 2)); [rewrite (H1 eq_refl); lia|].
  destruct (gt a (F64.of_Z 1));
    [rewrite (H2 eq_refl); destruct (gt a' (F64.of_Z 2)); lia|].
  destruct (gt a (F64.dec 5 1));
    [rewrite (H3 eq_refl); destruct (gt a' (F64.of_Z 2));
     destruct (gt a' (F64.of_Z 1)); lia|].
  destruct (gt a (F64.dec 2 1));
    [rewrite (H4 eq_refl); destruct (gt a' (F64.of_Z 2));
     destruct (gt a' (F64.of_Z 1)); destruct (gt a' (F64.dec 5 1)); lia|].
  destruct (gt a (F64.dec 1 1));
    [rewrite (H5 eq_refl); destruct (gt a' (F64.of_Z 2));
     destruct (gt a' (F64.of_Z 1)); destruct (gt a' (F64.dec 5 1));
     destruct (gt a' (F64.dec 2 1)); lia|].
  destruct (gt a (F64.dec 5 2));
    [rewrite (H6 eq_refl); destruct (gt a' (F64.of_Z 2));
     destruct (gt a' (F64.of_Z 1)); destruct (gt a' (F64.dec 5 1));
     destruct (gt a' (F64.dec 2 1)); destruct (gt a' (F64.dec 1 1)); lia|].
  destruct (gt a' (F64.of_Z 2)); destruct (gt a' (F64.of_Z 1));
    destruct (gt a' (F64.dec 5 1)); destruct (gt a' (F64.dec 2 1));
    destruct (gt a' (F64.dec 1 1)); destruct (gt a' (F64.dec 5 2)); lia.
Qed.

Lemma select_zoom_monotone_example :
  let b : bbox64 := (F64.of_Z 10, F64.of_Z 45, F64.dec 103 1, F64.dec 4515 2) in
  let b' : bbox64 := (F64.of_Z 10, F64.of_Z 45, F64.of_Z 13, F64.of_Z 46) in
  select_zoom b = 11 /\ select_zoom b' = 8 /\
  8 <= select_zoom b' /\ select_zoom b' <= select_zoom b /\ select_zoom b <= 14.
Proof.
  intros b b'.
  split; [vm_compute; reflexivity|]. split; [vm_compute; reflexivity|].
  apply (@select_zoom_monotone b b'). vm_compute. reflexivity.
Defined.


(** ** Projector: zoom levels, symmetry and the world square *)

Section ProjectorFurther.
Local Open Scope R_scope.














End ProjectorFurther.


(** ** Road lines *)

Section RoadLines.
Local Open Scope R_scope.

(** X11.  What [fetch_roads_overpass] keeps of the answer: exactly the geometries
    of the ways that have one with at least two points, in the order of the
    answer.  Nodes, relations, ways without geometry and shorter ways are
    never returned. *)
Theorem overpass_lines_spec (elements : list element) :
  (forall line,
      In line (overpass_lines elements) <->
      exists el, In el elements /\ el_type el = Way /\
                 el_geometry el = Some line /\ (2 <= length line)%nat) /\
  (length (overpass_lines elements) <= length elements)%nat /\
  (forall more, overpass_lines (elements ++ more)
                = overpass_lines elements ++ overpass_lines more).
Proof.
  split; [|split].
  - induction elements as [|el rest IH]; intros line.
    + simpl. split; [intros [] | intros (el & [] & _)].
    + cbn [overpass_lines].
      destruct (is_way (el_type el)) eqn:Ew.
      * destruct (el_geometry el) as [coords|] eqn:Eg.
        -- destruct (2 <=? length coords)%nat eqn:El.
           ++ split.
              ** intros [<-|Hin].
                 --- exists el. split; [left; reflexivity|].
                     split; [destruct (el_type el); try discriminate; reflexivity|].
                     split; [exact Eg|]. apply Nat.leb_le. exact El.
                 --- apply IH in Hin. destruct Hin as (el' & Hin & H).
                     exists el'. split; [right; exact Hin | exact H].
              ** intros (el' & [<-|Hin] & Ht & Hg & Hl).
                 --- left. congruence.
                 --- right. apply IH. exists el'. repeat split; assumption.
           ++ rewrite IH. split.
              ** intros (el' & Hin & H). exists el'. split; [right; exact Hin | exact H].
              ** intros (el' & [<-|Hin] & Ht & Hg & Hl).
                 --- exfalso. rewrite Eg in Hg. injection Hg as ->.
                     apply Nat.leb_le in Hl. congruence.
                 --- exists el'. repeat split; assumption.
        -- rewrite IH. split.
           ++ intros (el' & Hin & H). exists el'. split; [right; exact Hin | exact H].
           ++ intros (el' & [<-|Hin] & Ht & Hg & Hl); [congruence|].
              exists el'. repeat split; assumption.
      * rewrite IH. split.
        -- intros (el' & Hin & H). exists el'. split; [right; exact Hin | exact H].
        -- intros (el' & [<-|Hin] & Ht & Hg & Hl).
           ++ rewrite Ht in Ew. discriminate.
           ++ exists el'. repeat split; assumption.
  - induction elements as [|el rest IH]; [apply Nat.le_refl|].
    cbn [overpass_lines length].
    destruct (is_way (el_type el)); [|lia].
    destruct (el_geometry el) as [coords|]; [|lia].
    destruct (2 <=? length coords)%nat; cbn [length]; lia.
  - intros more. induction elements as [|el rest IH]; [reflexivity|].
    cbn [overpass_lines app].
    destruct (is_way (el_type el)); [|exact IH].
    destruct (el_geometry el) as [coords|]; [|exact IH].
    destruct (2 <=? length coords)%nat; [|exact IH].
    cbn [app]. rewrite IH. reflexivity.
Qed.


End RoadLines.


(** ** Mosaic assembly: extent, blocks and gaps *)

Lemma min_of_spec (xs : list Z) :
  forall x, In (min_of x xs) (x :: xs) /\ forall y, In y (x :: xs) -> min_of x xs <= y.
Proof.
  unfold min_of. induction xs as [|a xs IH]; intros x.
  - simpl. split; [left; reflexivity|]. intros y [<-|[]]. lia.
  - cbn [fold_left]. destruct (IH (Z.min x a)) as [Hin Hle]. split.
    + destruct Hin as [Hin|Hin]; [|right; right; exact Hin].
      rewrite <- Hin. destruct (Z.min_spec x a) as [[_ ->]|[_ ->]];
        [left | right; left]; reflexivity.
    + intros y [<-|[<-|Hy]].
      * specialize (Hle (Z.min x a) (or_introl eq_refl)). lia.
      * specialize (Hle (Z.min x a) (or_introl eq_refl)). lia.
      * apply Hle. right. exact Hy.
Qed.

Lemma max_of_spec (xs : list Z) :
  forall x, In (max_of x xs) (x :: xs) /\ forall y, In y (x :: xs) -> y <= max_of x xs.
Proof.
  unfold max_of. induction xs as [|a xs IH]; intros x.
  - simpl. split; [left; reflexivity|]. intros y [<-|[]]. lia.
  - cbn [fold_left]. destruct (IH (Z.max x a)) as [Hin Hle]. split.
    + destruct Hin as [Hin|Hin]; [|right; right; exact Hin].
      rewrite <- Hin. destruct (Z.max_spec x a) as [[_ ->]|[_ ->]];
        [right; left | left]; reflexivity.
    + intros y [<-|[<-|Hy]].
      * specialize (Hle (Z.max x a) (or_introl eq_refl)). lia.
      * specialize (Hle (Z.max x a) (or_introl eq_refl)). lia.
      * apply Hle. right. exact Hy.
Qed.

Lemma in_map_cons (f : Tile -> Z) (t t0 : Tile) (ts : list Tile) :
  In t (t0 :: ts) -> In (f t) (f t0 :: map f ts).
Proof. intros H. apply (in_map f) in H. exact H. Qed.

Lemma in_cons_map (f : Tile -> Z) (v : Z) (t0 : Tile) (ts : list Tile) :
  In v (f t0 :: map f ts) -> exists t, In t (t0 :: ts) /\ f t = v.
Proof.
  intros H. change (f t0 :: map f ts) with (map f (t0 :: ts)) in H.
  apply in_map_iff in H. destruct H as (t & E & Hin). exists t. split; assumption.
Qed.

Lemma mosaic_extent_sides (t0 : Tile) (ts : list Tile) :
  let '(_, _, mosaic_w, mosaic_h) := mosaic_extent t0 ts in
  exists nx ny, 1 <= nx /\ 1 <= ny /\
                mosaic_w = nx * TILE_SIZE /\ mosaic_h = ny * TILE_SIZE.
Proof.
  unfold mosaic_extent.
  destruct (@min_of_spec (map tile_x ts) (tile_x t0)) as [Ix _].
  destruct (@max_of_spec (map tile_x ts) (tile_x t0)) as [_ Ux].
  destruct (@min_of_spec (map tile_y ts) (tile_y t0)) as [Iy _].
  destruct (@max_of_spec (map tile_y ts) (tile_y t0)) as [_ Uy].
  specialize (Ux _ Ix). specialize (Uy _ Iy).
  exists (max_of (tile_x t0) (map tile_x ts) - min_of (tile_x t0) (map tile_x ts) + 1),
         (max_of (tile_y t0) (map tile_y ts) - min_of (tile_y t0) (map tile_y ts) + 1).
  repeat split; lia.
Qed.

(** X13.  The buffer is the smallest grid of whole tiles that holds the tile list:
    its sides are positive multiples of [TILE_SIZE], the block of every tile
    lies wholly inside it (no tile is clipped or written out of bounds), and
    each of its four edges is touched by some tile. *)
Theorem mosaic_extent_bounds (t0 : Tile) (ts : list Tile) :
  let '(min_tx, min_ty, mosaic_w, mosaic_h) := mosaic_extent t0 ts in
  (exists nx ny, 1 <= nx /\ 1 <= ny /\
                 mosaic_w = nx * TILE_SIZE /\ mosaic_h = ny * TILE_SIZE) /\
  (forall t, In t (t0 :: ts) ->
     let oy := (tile_y t - min_ty) * TILE_SIZE in
     let ox := (tile_x t - min_tx) * TILE_SIZE in
     0 <= oy /\ oy + TILE_SIZE <= mosaic_h /\ 0 <= ox /\ ox + TILE_SIZE <= mosaic_w) /\
  (exists t, In t (t0 :: ts) /\ (tile_x t - min_tx) * TILE_SIZE = 0) /\
  (exists t, In t (t0 :: ts) /\ (tile_y t - min_ty) * TILE_SIZE = 0) /\
  (exists t, In t (t0 :: ts) /\ (tile_x t - min_tx) * TILE_SIZE + TILE_SIZE = mosaic_w) /\
  (exists t, In t (t0 :: ts) /\ (tile_y t - min_ty) * TILE_SIZE + TILE_SIZE = mosaic_h).
Proof.
  unfold mosaic_extent.
  destruct (@min_of_spec (map tile_x ts) (tile_x t0)) as [Ix Lx].
  destruct (@max_of_spec (map tile_x ts) (tile_x t0)) as [Jx Ux].
  destruct (@min_of_spec (map tile_y ts) (tile_y t0)) as [Iy Ly].
  destruct (@max_of_spec (map tile_y ts) (tile_y t0)) as [Jy Uy].
  set (min_tx := min_of (tile_x t0) (map tile_x ts)) in *.
  set (max_tx := max_of (tile_x t0) (map tile_x ts)) in *.
  set (min_ty := min_of (tile_y t0) (map tile_y ts)) in *.
  set (max_ty := max_of (tile_y t0) (map tile_y ts)) in *.
  assert (Hx : min_tx <= max_tx) by (apply Ux; exact Ix).
  assert (Hy : min_ty <= max_ty) by (apply Uy; exact Iy).
  unfold TILE_SIZE.
  split; [|split; [|split; [|split; [|split]]]].
  - exists (max_tx - min_tx + 1), (max_ty - min_ty + 1). repeat split; lia.
  - intros t Hin.
    pose proof (Lx _ (@in_map_cons tile_x _ _ _ Hin)).
    pose proof (Ux _ (@in_map_cons tile_x _ _ _ Hin)).
    pose proof (Ly _ (@in_map_cons tile_y _ _ _ Hin)).
    pose proof (Uy _ (@in_map_cons tile_y _ _ _ Hin)).
    cbv zeta. lia.
  - destruct (@in_cons_map tile_x _ _ _ Ix) as (t & Hin & E). exists t. split; [exact Hin|lia].
  - destruct (@in_cons_map tile_y _ _ _ Iy) as (t & Hin & E). exists t. split; [exact Hin|lia].
  - destruct (@in_cons_map tile_x _ _ _ Jx) as (t & Hin & E). exists t. split; [exact Hin|lia].
  - destruct (@in_cons_map tile_y _ _ _ Jy) as (t & Hin & E). exists t. split; [exact Hin|lia].
Qed.

Section MosaicCells.

Variable fetch_image : Z -> Tile -> result image.
Variables zoom min_tx min_ty : Z.

Let body := place_tile fetch_image zoom min_tx min_ty.
Let oy (t : Tile) := (tile_y t - min_ty) * TILE_SIZE.
Let ox (t : Tile) := (tile_x t - min_tx) * TILE_SIZE.

(** A cell belongs to the block of at most one tile. *)
Lemma block_unique (t t' : Tile) (i j : Z) :
  in_block (oy t) (ox t) i j = true -> in_block (oy t') (ox t') i j = true -> t = t'.
Proof.
  unfold in_block, oy, ox, TILE_SIZE. intros H H'.
  rewrite !andb_true_iff in H, H'.
  destruct H as [[[H1 H2] H3] H4]. destruct H' as [[[H1' H2'] H3'] H4'].
  apply Z.leb_le in H1, H3, H1', H3'. apply Z.ltb_lt in H2, H4, H2', H4'.
  apply tile_eq; lia.
Qed.

(** After a loop that ran to its end, a cell holds the decoded pixel of the
    tile whose block it is in, and what the buffer held before when it is in
    no block. *)
Lemma foldM_cells (l : list Tile) :
  forall m0 m, Py.foldM body l m0 = Ok m ->
  forall i j,
    (exists t img, In t l /\ in_block (oy t) (ox t) i j = true /\
                   fetch_image zoom t = Ok img /\
                   cell m i j = cell (decode_terrarium img) (i - oy t) (j - ox t)) \/
    ((forall t, In t l -> in_block (oy t) (ox t) i j = false) /\
     cell m i j = cell m0 i j).
Proof.
  induction l as [|t l IH] using rev_ind; intros m0 m H i j.
  - simpl in H. injection H as <-. right. split; [intros t []|reflexivity].
  - rewrite foldM_app in H.
    destruct (Py.foldM body l m0) as [m1|e] eqn:E1; [|discriminate].
    simpl in H.
    destruct (@place_tile_cases fetch_image zoom min_tx min_ty m1 t)
      as [[_ (img & Hfetch & Hb)]|[_ (e & He)]];
      [|fold body in He; rewrite He in H; discriminate].
    fold body in Hb. rewrite Hb in H. simpl in H. injection H as <-. cbn [cell].
    fold (oy t) (ox t).
    destruct (in_block (oy t) (ox t) i j) eqn:Hblk.
    + left. exists t, img. split; [apply in_or_app; right; left; reflexivity|].
      repeat split; assumption.
    + destruct (IH m0 m1 E1 i j) as [(t' & img' & Hin & Hb' & Hf' & Hc)|[Hno Hc]].
      * left. exists t', img'. split; [apply in_or_app; left; exact Hin|].
        repeat split; assumption.
      * right. split; [|exact Hc].
        intros t' Hin. apply in_app_or in Hin. destruct Hin as [Hin|[<-|[]]];
          [apply Hno; exact Hin | exact Hblk].
Qed.

End MosaicCells.

(** X14.  Every cell of an assembled mosaic is accounted for: it is the decoded
    pixel of the one tile whose block holds it, or, when no listed tile covers
    it (a gap in the tile list), it is still NaN. *)
Theorem mosaic_cells
    (fetch_image : Z -> Tile -> result image) (zoom : Z) (t0 : Tile) (ts : list Tile)
    (mosaic : raster) :
  assemble_mosaic fetch_image zoom t0 ts = Ok mosaic ->
  let '(min_tx, min_ty, mosaic_w, mosaic_h) := mosaic_extent t0 ts in
  forall i j,
    (exists t img,
        In t (t0 :: ts) /\
        in_block ((tile_y t - min_ty) * TILE_SIZE) ((tile_x t - min_tx) * TILE_SIZE) i j
        = true /\
        fetch_image zoom t = Ok img /\
        cell mosaic i j
        = cell (decode_terrarium img) (i - (tile_y t - min_ty) * TILE_SIZE)
                                      (j - (tile_x t - min_tx) * TILE_SIZE) /\
        forall t', In t' (t0 :: ts) ->
          in_block ((tile_y t' - min_ty) * TILE_SIZE) ((tile_x t' - min_tx) * TILE_SIZE) i j
          = true -> t' = t) \/
    ((forall t, In t (t0 :: ts) ->
        in_block ((tile_y t - min_ty) * TILE_SIZE) ((tile_x t - min_tx) * TILE_SIZE) i j
        = false) /\
     is_nan (cell mosaic i j) = true).
Proof.
  unfold assemble_mosaic, mosaic_extent.
  set (min_tx := min_of (tile_x t0) (map tile_x ts)).
  set (min_ty := min_of (tile_y t0) (map tile_y ts)).
  intros H i j.
  destruct (@foldM_cells fetch_image zoom min_tx min_ty (t0 :: ts) _ _ H i j)
    as [(t & img & Hin & Hb & Hf & Hc)|[Hno Hc]].
  - left. exists t, img. repeat split; try assumption.
    intros t' _ Hb'. exact (@block_unique min_tx min_ty t' t i j Hb' Hb).
  - right. split; [exact Hno|]. rewrite Hc. reflexivity.
Qed.

Lemma mosaic_cells_example :
  exists mosaic,
    assemble_mosaic fetch_column_0 12 (MkTile 0 3) [MkTile 0 5] = Ok mosaic /\
    rows mosaic = 768 /\ cols mosaic = 256 /\
    forall i j,
      (exists t img,
          In t [MkTile 0 3; MkTile 0 5] /\
          in_block ((tile_y t - 3) * TILE_SIZE) ((tile_x t - 0) * TILE_SIZE) i j = true /\
          fetch_column_0 12 t = Ok img /\
          cell mosaic i j
          = cell (decode_terrarium img) (i - (tile_y t - 3) * TILE_SIZE)
                                        (j - (tile_x t - 0) * TILE_SIZE) /\
          forall t', In t' [MkTile 0 3; MkTile 0 5] ->
            in_block ((tile_y t' - 3) * TILE_SIZE) ((tile_x t' - 0) * TILE_SIZE) i j
            = true -> t' = t) \/
      ((forall t, In t [MkTile 0 3; MkTile 0 5] ->
          in_block ((tile_y t - 3) * TILE_SIZE) ((tile_x t - 0) * TILE_SIZE) i j
          = false) /\
       is_nan (cell mosaic i j) = true).
Proof.
  eexists. split; [reflexivity|]. split; [reflexivity|]. split; [reflexivity|].
  apply (@mosaic_cells fetch_column_0 12 (MkTile 0 3) [MkTile 0 5]).
  reflexivity.
Defined.


(** ** Mosaic assembly: the order of the tiles *)

Lemma min_of_perm (x y : Z) (xs ys : list Z) :
  Permutation (x :: xs) (y :: ys) -> min_of x xs = min_of y ys.
Proof.
  intros P.
  destruct (@min_of_spec xs x) as [I1 L1]. destruct (@min_of_spec ys y) as [I2 L2].
  pose proof (L1 _ (Permutation_in _ (Permutation_sym P) I2)).
  pose proof (L2 _ (Permutation_in _ P I1)). lia.
Qed.

Lemma max_of_perm (x y : Z) (xs ys : list Z) :
  Permutation (x :: xs) (y :: ys) -> max_of x xs = max_of y ys.
Proof.
  intros P.
  destruct (@max_of_spec xs x) as [I1 L1]. destruct (@max_of_spec ys y) as [I2 L2].
  pose proof (L1 _ (Permutation_in _ (Permutation_sym P) I2)).
  pose proof (L2 _ (Permutation_in _ P I1)). lia.
Qed.

Lemma forallb_perm (A : Type) (f : A -> bool) (l l' : list A) :
  Permutation l l' -> forallb f l = forallb f l'.
Proof.
  induction 1 as [|a l l' _ IH|a b l|l l' l'' _ IH1 _ IH2]; simpl.
  - reflexivity.
  - rewrite IH. reflexivity.
  - destruct (f a); destruct (f b); reflexivity.
  - congruence.
Qed.

(** X15.  The mosaic does not depend on the order in which the tiles are listed
    (nor on repetitions): two listings of the same tiles give the same
    extent, succeed or fail together, and give the same raster, cell for
    cell. *)
Theorem mosaic_order_irrelevant
    (fetch_image : Z -> Tile -> result image) (zoom : Z)
    (t0 t0' : Tile) (ts ts' : list Tile) :
  Permutation (t0 :: ts) (t0' :: ts') ->
  mosaic_extent t0 ts = mosaic_extent t0' ts' /\
  Py.is_ok (assemble_mosaic fetch_image zoom t0 ts)
  = Py.is_ok (assemble_mosaic fetch_image zoom t0' ts') /\
  forall m m',
    assemble_mosaic fetch_image zoom t0 ts = Ok m ->
    assemble_mosaic fetch_image zoom t0' ts' = Ok m' ->
    rows m = rows m' /\ cols m = cols m' /\ forall i j, cell m i j = cell m' i j.
Proof.
  intros P.
  assert (Hpx : Permutation (tile_x t0 :: map tile_x ts) (tile_x t0' :: map tile_x ts'))
    by exact (Permutation_map tile_x P).
  assert (Hpy : Permutation (tile_y t0 :: map tile_y ts) (tile_y t0' :: map tile_y ts'))
    by exact (Permutation_map tile_y P).
  assert (Ext : mosaic_extent t0 ts = mosaic_extent t0' ts').
  { unfold mosaic_extent.
    rewrite (min_of_perm Hpx), (max_of_perm Hpx), (min_of_perm Hpy), (max_of_perm Hpy).
    reflexivity. }
  split; [exact Ext|].
  unfold assemble_mosaic. rewrite <- Ext. unfold mosaic_extent.
  set (min_tx := min_of (tile_x t0) (map tile_x ts)).
  set (min_ty := min_of (tile_y t0) (map tile_y ts)).
  set (m0 := np_full_nan _ _).
  split.
  - rewrite !foldM_is_ok. apply forallb_perm. exact P.
  - intros m m' H H'.
    destruct (@foldM_placed fetch_image zoom min_tx min_ty _ _ _ H) as (R1 & C1 & _).
    destruct (@foldM_placed fetch_image zoom min_tx min_ty _ _ _ H') as (R2 & C2 & _).
    split; [congruence|]. split; [congruence|].
    intros i j.
    destruct (@foldM_cells fetch_image zoom min_tx min_ty _ _ _ H i j)
      as [(t & img & Hin & Hb & Hf & Hc)|[Hno Hc]];
    destruct (@foldM_cells fetch_image zoom min_tx min_ty _ _ _ H' i j)
      as [(t' & img' & Hin' & Hb' & Hf' & Hc')|[Hno' Hc']].
    + assert (t = t') by exact (@block_unique min_tx min_ty t t' i j Hb Hb').
      subst t'. assert (img' = img) by congruence. subst img'. congruence.
    + rewrite (Hno' t (Permutation_in _ P Hin)) in Hb. discriminate.
    + rewrite (Hno t' (Permutation_in _ (Permutation_sym P) Hin')) in Hb'. discriminate.
    + congruence.
Qed.

Lemma mosaic_order_irrelevant_example :
  Permutation [MkTile 0 3; MkTile 0 5] [MkTile 0 5; MkTile 0 3] /\
  mosaic_extent (MkTile 0 3) [MkTile 0 5] = mosaic_extent (MkTile 0 5) [MkTile 0 3] /\
  Py.is_ok (assemble_mosaic fetch_column_0 12 (MkTile 0 3) [MkTile 0 5])
  = Py.is_ok (assemble_mosaic fetch_column_0 12 (MkTile 0 5) [MkTile 0 3]) /\
  forall m m',
    assemble_mosaic fetch_column_0 12 (MkTile 0 3) [MkTile 0 5] = Ok m ->
    assemble_mosaic fetch_column_0 12 (MkTile 0 5) [MkTile 0 3] = Ok m' ->
    rows m = rows m' /\ cols m = cols m' /\ forall i j, cell m i j = cell m' i j.
Proof.
  split; [apply perm_swap|].
  apply (@mosaic_order_irrelevant fetch_column_0 12 (MkTile 0 3) (MkTile 0 5)
           [MkTile 0 5] [MkTile 0 3]).
  apply perm_swap.
Defined.


(** ** The whole of [build_elevation_mosaic], and what its callers get *)

Lemma slice_bound_range (n i : Z) : 0 <= n -> 0 <= slice_bound n i <= n.
Proof. intros Hn. unfold slice_bound. destruct (Z.ltb_spec i 0); lia. Qed.







(** ** Alignment of the road overlay with the contour canvas *)

Section Alignment.
Local Open Scope R_scope.




End Alignment.


(** ** The web forms: bounding box validation *)

Lemma between_finite (lo hi : Z) (x : spec_float) :
  is_finite (F64.of_Z lo) = true -> is_finite (F64.of_Z hi) = true ->
  between lo hi x = true -> is_finite x = true.
Proof.
  unfold between, SFleb, SFcompare.
  destruct (F64.of_Z lo) as [sl|sl| |sl ml el]; try discriminate;
    destruct (F64.of_Z hi) as [sh|sh| |sh mh eh]; try discriminate;
    destruct x as [s|s| |s m e]; try reflexivity; intros _ _ H;
    try destruct s; try destruct sl; try destruct sh; simpl in H; discriminate.
Qed.

Lemma parse_parts_four (py_strip : string -> string)
    (py_float : string -> option spec_float) (parts : list string)
    (a b c d : spec_float) :
  parse_parts py_strip py_float parts = Some [a; b; c; d] <->
  exists p1 p2 p3 p4,
    parts = [p1; p2; p3; p4] /\
    py_float (py_strip p1) = Some a /\ py_float (py_strip p2) = Some b /\
    py_float (py_strip p3) = Some c /\ py_float (py_strip p4) = Some d.
Proof.
  split.
  - destruct parts as [|p1 [|p2 [|p3 [|p4 [|p5 rest]]]]]; simpl;
      repeat match goal with
             | |- context [py_float ?s] => destruct (py_float s) eqn:?
             | |- context [parse_parts ?f ?g ?l] => destruct (parse_parts f g l)
             end; intros H; try discriminate.
    injection H as <- <- <- <-.
    exists p1, p2, p3, p4. repeat split; assumption.
  - intros (p1 & p2 & p3 & p4 & -> & H1 & H2 & H3 & H4).
    simpl. rewrite H1, H2, H3, H4. reflexivity.
Qed.

Lemma validate_bbox_checks (py_strip : string -> string)
    (py_float : string -> option spec_float) (bbox_str : string)
    (min_lon min_lat max_lon max_lat : spec_float) :
  validate_bbox py_strip py_float bbox_str
  = Accepted (min_lon, min_lat, max_lon, max_lat) <->
  parse_parts py_strip py_float (split_comma bbox_str)
  = Some [min_lon; min_lat; max_lon; max_lat] /\
  SFltb min_lon max_lon = true /\ SFltb min_lat max_lat = true /\
  between (-180) 180 min_lon = true /\ between (-180) 180 max_lon = true /\
  between (-85) 85 min_lat = true /\ between (-85) 85 max_lat = true.
Proof.
  unfold validate_bbox.
  destruct (parse_parts py_strip py_float (split_comma bbox_str))
    as [[|a [|b [|c [|d [|x xs]]]]]|];
    try (split; [discriminate | intros (H & _); discriminate]).
  destruct (SFltb a c) eqn:E1; destruct (SFltb b d) eqn:E2;
    destruct (between (-180) 180 a) eqn:E3; destruct (between (-180) 180 c) eqn:E4;
    destruct (between (-85) 85 b) eqn:E5; destruct (between (-85) 85 d) eqn:E6;
    cbn [negb andb];
    split; intros H; try discriminate H;
    try (injection H as <- <- <- <-; repeat split; assumption);
    try (destruct H as (H & H1 & H2 & H3 & H4 & H5 & H6);
         injection H as <- <- <- <-; congruence).
Qed.

(** X18.  A bounding box is accepted exactly when the text has four
    comma-separated pieces that all read as floats, with [min < max] on both
    axes, longitudes within [-180, 180] and latitudes within [-85, 85].  So
    an accepted box never holds a NaN or an infinity. *)
Theorem validate_bbox_spec (py_strip : string -> string)
    (py_float : string -> option spec_float) (bbox_str : string)
    (min_lon min_lat max_lon max_lat : spec_float) :
  let accepted :=
    validate_bbox py_strip py_float bbox_str
    = Accepted (min_lon, min_lat, max_lon, max_lat) in
  (accepted <->
   (exists p1 p2 p3 p4,
       split_comma bbox_str = [p1; p2; p3; p4] /\
       py_float (py_strip p1) = Some min_lon /\ py_float (py_strip p2) = Some min_lat /\
       py_float (py_strip p3) = Some max_lon /\ py_float (py_strip p4) = Some max_lat) /\
   SFltb min_lon max_lon = true /\ SFltb min_lat max_lat = true /\
   between (-180) 180 min_lon = true /\ between (-180) 180 max_lon = true /\
   between (-85) 85 min_lat = true /\ between (-85) 85 max_lat = true) /\
  (accepted ->
   is_finite min_lon = true /\ is_finite min_lat = true /\
   is_finite max_lon = true /\ is_finite max_lat = true).
Proof.
  intros accepted.
  pose proof (@validate_bbox_checks py_strip py_float bbox_str
                min_lon min_lat max_lon max_lat) as Hiff.
  fold accepted in Hiff.
  split.
  - rewrite Hiff, parse_parts_four. reflexivity.
  - intros H. apply Hiff in H. destruct H as (_ & _ & _ & H3 & H4 & H5 & H6).
    repeat split; eapply between_finite; try eassumption; reflexivity.
Qed.

Lemma validate_bbox_spec_example :
  validate_bbox (fun s => s) float_of_digits "10,45,11,46"
  = Accepted (F64.of_Z 10, F64.of_Z 45, F64.of_Z 11, F64.of_Z 46) /\
  is_finite (F64.of_Z 10) = true /\ is_finite (F64.of_Z 45) = true /\
  is_finite (F64.of_Z 11) = true /\ is_finite (F64.of_Z 46) = true.
Proof.
  split; [vm_compute; reflexivity|].
  apply (proj2 (@validate_bbox_spec (fun s => s) float_of_digits "10,45,11,46"
                  (F64.of_Z 10) (F64.of_Z 45) (F64.of_Z 11) (F64.of_Z 46))).
  vm_compute. reflexivity.
Defined.


(** ** The web forms: what reaches the renderer, and the credits *)

Section WebProofs.

Variable py_strip : string -> string.
Variable py_float : string -> option spec_float.
Variable generate_contour_map : inputs -> Z -> result string.

Let checked := checked_inputs py_strip py_float.

Lemma SFleb_false_positive (x : spec_float) :
  SFleb x (F64.of_Z 0) = false -> is_nan x = true \/ SFltb (F64.of_Z 0) x = true.
Proof.
  intros H. destruct (is_nan x) eqn:En; [left; reflexivity|right].
  assert (E0 : is_nan (F64.of_Z 0) = false) by reflexivity.
  apply (SFltb_key _ _ E0 En).
  destruct (key_total (SFkey (F64.of_Z 0)) (SFkey x)) as [Hlt|Hle]; [exact Hlt|].
  apply (SFleb_key _ _ En E0) in Hle. congruence.
Qed.

Lemma checked_inputs_continue (f : form) (i : inputs) :
  checked f = Continue i ->
  exists bbox_str interval background_color,
    bbox_str = py_strip (match form_bbox f with Some s => s | None => ""%string end) /\
    bbox_str <> ""%string /\
    validate_bbox py_strip py_float bbox_str = Accepted (in_bbox i) /\
    match form_interval f with
    | Some s => py_float s
    | None => Some (F64.of_Z 10)
    end = Some interval /\
    in_interval i = interval /\
    SFleb interval (F64.of_Z 0) = false /\
    in_background_color i
    = (if String.prefix "#" background_color then background_color
       else ("#" ++ background_color)%string) /\
    in_roads i = form_roads f /\
    100 <= in_width i <= 5000 /\ 100 <= in_height i <= 5000.
Proof.
  unfold checked, checked_inputs.
  destruct (match form_interval f with
            | Some s => py_float s
            | None => Some (F64.of_Z 10)
            end) as [interval|]; [|discriminate].
  destruct (parse_size py_float (form_width f) "1600" 1600) as [width|]; [|discriminate].
  destruct (parse_size py_float (form_height f) "1200" 1200) as [height|]; [|discriminate].
  set (bbox_str := py_strip match form_bbox f with
                            | Some s => s
                            | None => ""%string
                            end).
  destruct (String.eqb_spec bbox_str "") as [E|E]; [discriminate|].
  destruct (validate_bbox py_strip py_float bbox_str) as [bbox|why] eqn:Ev; [|discriminate].
  destruct (SFleb interval (F64.of_Z 0)) eqn:Ei; [discriminate|].
  destruct (Z.ltb_spec width 100); cbn [orb]; [discriminate|].
  destruct (Z.ltb_spec 5000 width); cbn [orb]; [discriminate|].
  destruct (Z.ltb_spec height 100); cbn [orb]; [discriminate|].
  destruct (Z.ltb_spec 5000 height); cbn [orb]; [discriminate|].
  intros Hc. injection Hc as <-. cbn.
  exists bbox_str, interval,
    (py_strip match form_background_color f with
              | Some s => s
              | None => "#ffffff"%string
              end).
  repeat split; try assumption; try reflexivity; lia.
Qed.

(** X19.  [generate] hands to [generate_contour_map] checked inputs only: a
    bounding box that [validate_bbox] accepted (finite, ordered, in range),
    sizes between 100 and 5000, a colour that starts with '#', and an
    interval that is not [<= 0].  So the automatic interval of the level
    planner is never used from the web form; an interval that is not a
    number does pass the check. *)
Theorem generate_inputs_checked (f : form) (i : inputs) :
  checked_inputs py_strip py_float f = Continue i ->
  let bbox_str :=
    py_strip (match form_bbox f with Some s => s | None => ""%string end) in
  let '(min_lon, min_lat, max_lon, max_lat) := in_bbox i in
  (bbox_str <> ""%string /\
   validate_bbox py_strip py_float bbox_str = Accepted (in_bbox i)) /\
  (is_finite min_lon = true /\ is_finite min_lat = true /\
   is_finite max_lon = true /\ is_finite max_lat = true) /\
  (SFltb min_lon max_lon = true /\ SFltb min_lat max_lat = true) /\
  (is_nan (in_interval i) = true \/ SFltb (F64.of_Z 0) (in_interval i) = true) /\
  (forall min_e max_e,
      effective_interval min_e max_e (in_interval i) = in_interval i) /\
  String.prefix "#" (in_background_color i) = true /\
  100 <= in_width i <= 5000 /\ 100 <= in_height i <= 5000.
Proof.
  intros H bbox_str.
  destruct (checked_inputs_continue f H)
    as (bbox_str' & interval & bg & Es & Hne & Hv & _ & Ei & Hi & Hbg & _ & Hw & Hh).
  fold bbox_str in Es. subst bbox_str'.
  destruct (in_bbox i) as [[[min_lon min_lat] max_lon] max_lat] eqn:Eb.
  split; [split; assumption|].
  apply validate_bbox_checks in Hv. destruct Hv as (_ & L1 & L2 & B1 & B2 & B3 & B4).
  split; [repeat split; eapply between_finite; try eassumption; reflexivity|].
  split; [split; assumption|].
  rewrite Ei.
  split; [apply SFleb_false_positive; exact Hi|].
  split; [intros min_e max_e; unfold effective_interval; rewrite Hi; reflexivity|].
  split; [|split; assumption].
  rewrite Hbg. destruct (String.prefix "#" bg) eqn:Ep; [exact Ep|].
  simpl. destruct bg; reflexivity.
Qed.

(** X20.  The credits of one request.  Without a credit nothing is done.
    Otherwise the user pays one credit exactly when a map is rendered; keeps
    the credits when a check redirects or the renderer fails (the credit
    taken is given back); and ends with one credit more when an exception
    is raised before the credit is taken (an interval that is not a float,
    a rejected bounding box, an infinite size), because the handlers add one
    credit then too. *)
Theorem generate_credits (credits user_id : Z) (f : form) :
  let '(resp, credits') := generate py_strip py_float generate_contour_map
                             credits user_id f in
  (credits < 1 -> resp = RedirectPurchase NeedCredits /\ credits' = credits) /\
  (1 <= credits ->
   match checked_inputs py_strip py_float f with
   | Respond message => resp = RedirectIndex message /\ credits' = credits
   | Throw e => resp = RedirectIndex (Failed e) /\ credits' = credits + 1
   | Continue i =>
       match generate_contour_map i user_id with
       | Ok filename =>
           resp = ResultPage filename (credits - 1) /\ credits' = credits - 1
       | Raise e =>
           resp = RedirectIndex (Failed (RenderFailure e)) /\ credits' = credits
       end
   end) /\
  ((exists filename n, resp = ResultPage filename n) <-> credits' = credits - 1) /\
  ((exists e, 1 <= credits /\ checked_inputs py_strip py_float f = Throw e)
   <-> credits' = credits + 1).
Proof.
  unfold generate.
  destruct (Z.ltb_spec credits 1) as [Hc|Hc];
    [|destruct (checked_inputs py_strip py_float f) as [i|message|e];
      [destruct (generate_contour_map i user_id) as [filename|e]|..]];
    cbv beta iota zeta;
    repeat split; intros;
    repeat match goal with
           | H : exists _, _ |- _ => destruct H
           | H : _ /\ _ |- _ => destruct H
           end;
    try discriminate; try lia; try reflexivity;
    try (do 2 eexists; reflexivity);
    try (eexists; split; [exact Hc | reflexivity]).
Qed.

(** X21.  Credits for nothing: a user with one credit who repeats a request that
    raises before the credit is taken gains one credit per request, without
    bound, and no map is rendered. *)
Theorem generate_refund_without_charge (credits user_id : Z) (f : form) (e : failure) :
  1 <= credits ->
  checked_inputs py_strip py_float f = Throw e ->
  forall n : nat,
    Nat.iter n (fun c => snd (generate py_strip py_float generate_contour_map c user_id f))
             credits
    = credits + Z.of_nat n /\
    fst (generate py_strip py_float generate_contour_map (credits + Z.of_nat n) user_id f)
    = RedirectIndex (Failed e).
Proof.
  intros Hc He.
  assert (Hstep : forall c, 1 <= c ->
            generate py_strip py_float generate_contour_map c user_id f
            = (RedirectIndex (Failed e), c + 1)).
  { intros c H. unfold generate. destruct (Z.ltb_spec c 1); [lia|].
    rewrite He. reflexivity. }
  intros n. split.
  - induction n as [|n IH]; [simpl; lia|].
    rewrite Nat.iter_succ, IH, Hstep by lia. cbn [snd]. lia.
  - rewrite Hstep by lia. reflexivity.
Qed.

End WebProofs.

Lemma generate_inputs_checked_example :
  let f := Form (Some "10,45,11,46"%string) (Some "20"%string) None true None None in
  let i := Inputs (F64.of_Z 10, F64.of_Z 45, F64.of_Z 11, F64.of_Z 46) (F64.of_Z 20)
                  "#ffffff" true 1600 1200 in
  checked_inputs (fun s => s) float_of_digits f = Continue i /\
  ("10,45,11,46"%string <> ""%string /\
   validate_bbox (fun s => s) float_of_digits "10,45,11,46" = Accepted (in_bbox i)) /\
  (is_finite (F64.of_Z 10) = true /\ is_finite (F64.of_Z 45) = true /\
   is_finite (F64.of_Z 11) = true /\ is_finite (F64.of_Z 46) = true) /\
  (SFltb (F64.of_Z 10) (F64.of_Z 11) = true /\ SFltb (F64.of_Z 45) (F64.of_Z 46) = true) /\
  (is_nan (in_interval i) = true \/ SFltb (F64.of_Z 0) (in_interval i) = true) /\
  (forall min_e max_e,
      effective_interval min_e max_e (in_interval i) = in_interval i) /\
  String.prefix "#" (in_background_color i) = true /\
  100 <= in_width i <= 5000 /\ 100 <= in_height i <= 5000.
Proof.
  intros f i. split; [vm_compute; reflexivity|].
  apply (@generate_inputs_checked (fun s => s) float_of_digits f i).
  vm_compute. reflexivity.
Defined.

Lemma generate_refund_without_charge_example :
  let f := Form (Some "here"%string) None None false None None in
  let render := fun (_ : inputs) (_ : Z) => Ok "map.png"%string in
  1 <= 1 /\
  checked_inputs (fun s => s) float_of_digits f = Throw (BadBox NotAFloat) /\
  forall n : nat,
    Nat.iter n (fun c => snd (generate (fun s => s) float_of_digits render c 7 f)) 1
    = 1 + Z.of_nat n /\
    fst (generate (fun s => s) float_of_digits render (1 + Z.of_nat n) 7 f)
    = RedirectIndex (Failed (BadBox NotAFloat)).
Proof.
  intros f render. split; [lia|]. split; [vm_compute; reflexivity|].
  apply (@generate_refund_without_charge (fun s => s) float_of_digits render 1 7 f
           (BadBox NotAFloat)); [lia | vm_compute; reflexivity].
Defined.


(** ** The web forms: a payment is credited once *)

Section PaymentProofs.

Variable stripe_status : string -> option string.

Lemma find_map_preserved (A : Type) (p : A -> bool) (g : A -> A) (l : list A) :
  (forall x, p (g x) = p x) -> find p (map g l) = option_map g (find p l).
Proof.
  intros Hp. induction l as [|x l IH]; [reflexivity|].
  simpl. rewrite Hp. destruct (p x); [reflexivity | exact IH].
Qed.

Lemma first_transaction_complete (payment_intent_id : string) (user_id : Z)
    (row : transaction) (transactions : list transaction) :
  first_transaction payment_intent_id user_id transactions = Some row ->
  exists row',
    first_transaction payment_intent_id user_id (complete row transactions) = Some row' /\
    t_status row' = "completed"%string.
Proof.
  unfold first_transaction, complete. intros H.
  rewrite find_map_preserved.
  - rewrite H. cbn [option_map]. rewrite Z.eqb_refl. eexists. split; reflexivity.
  - intros t. destruct (t_id t =? t_id row); reflexivity.
Qed.

(** X22.  A payment is credited at most once.  Credits are added only for a
    transaction of the current user that is still pending and that the
    payment service reports as succeeded, and then by the credits of that
    transaction; the handler marks it completed, so that handling the same
    payment again changes nothing.  No row is added or removed. *)
Theorem payment_success_once (payment_intent : option string) (user_id credits : Z)
    (transactions : list transaction) :
  let '(credits', transactions') :=
    payment_success stripe_status payment_intent user_id credits transactions in
  payment_success stripe_status payment_intent user_id credits' transactions'
  = (credits', transactions') /\
  List.length transactions' = List.length transactions /\
  ((credits' = credits /\ transactions' = transactions) \/
   exists payment_intent_id row,
     payment_intent = Some payment_intent_id /\
     In row transactions /\
     t_user row = user_id /\ t_intent row = payment_intent_id /\
     t_status row = "pending"%string /\
     stripe_status payment_intent_id = Some "succeeded"%string /\
     credits' = credits + t_credits row /\
     transactions' = complete row transactions).
Proof.
  unfold payment_success.
  destruct payment_intent as [id|];
    [|split; [reflexivity|]; split; [reflexivity|]; left; split; reflexivity].
  destruct (String.eqb_spec id "") as [E0|E0];
    [split; [reflexivity|]; split; [reflexivity|]; left; split; reflexivity|].
  destruct (first_transaction id user_id transactions) as [row|] eqn:Ef;
    [|rewrite Ef; split; [reflexivity|]; split; [reflexivity|]; left; split; reflexivity].
  destruct (String.eqb_spec (t_status row) "pending") as [Ep|Ep];
    [|rewrite Ef; destruct (String.eqb_spec (t_status row) "pending"); [contradiction|];
      split; [reflexivity|]; split; [reflexivity|]; left; split; reflexivity].
  destruct (stripe_status id) as [status|] eqn:Es;
    [|rewrite Ef; destruct (String.eqb_spec (t_status row) "pending"); [|contradiction];
      split; [reflexivity|]; split; [reflexivity|]; left; split; reflexivity].
  destruct (String.eqb_spec status "succeeded") as [Ess|Ess];
    [|rewrite Ef; destruct (String.eqb_spec (t_status row) "pending"); [|contradiction];
      destruct (String.eqb_spec status "succeeded"); [contradiction|];
      split; [reflexivity|]; split; [reflexivity|]; left; split; reflexivity].
  destruct (first_transaction_complete _ _ _ Ef) as (row' & Ef' & Ec).
  rewrite Ef', Ec. cbn [String.eqb Ascii.eqb Bool.eqb].
  split; [reflexivity|]. split; [apply length_map|].
  right. exists id, row.
  unfold first_transaction in Ef. pose proof (find_some _ _ Ef) as [Hin Hp].
  apply andb_true_iff in Hp. destruct Hp as [Hi Hu].
  apply String.eqb_eq in Hi. apply Z.eqb_eq in Hu.
  subst status. repeat split; assumption || reflexivity.
Qed.

End PaymentProofs.


(** ** No gap in the raster of a full tile grid *)

Lemma slice_window (n lo hi i : Z) :
  0 <= n -> 0 <= i < slice_len n lo hi -> 0 <= i + slice_bound n lo < n.
Proof.
  intros Hn Hi. unfold slice_len in Hi.
  pose proof (@slice_bound_range n lo Hn). pose proof (@slice_bound_range n hi Hn). lia.
Qed.

Lemma in_block_of_cell (min_tx min_ty i j : Z) :
  in_block ((min_ty + i / TILE_SIZE - min_ty) * TILE_SIZE)
           ((min_tx + j / TILE_SIZE - min_tx) * TILE_SIZE) i j = true.
Proof.
  unfold in_block, TILE_SIZE.
  pose proof (Z.div_mod i 256 ltac:(lia)). pose proof (Z.mod_pos_bound i 256 ltac:(lia)).
  pose proof (Z.div_mod j 256 ltac:(lia)). pose proof (Z.mod_pos_bound j 256 ltac:(lia)).
  rewrite !andb_true_iff. repeat split; try apply Z.leb_le; try apply Z.ltb_lt; lia.
Qed.

(** X23.  When the tile list is the full grid of its extent and every tile image
    has 8-bit channels, the raster [build_elevation_mosaic] returns has no
    gap: every one of its cells is a finite elevation. *)
Theorem build_elevation_mosaic_finite
    (mercantile_tiles : bbox -> Z -> list Tile)
    (fetch_image : Z -> Tile -> result image) (b : bbox) (zoom : Z)
    (t0 : Tile) (ts : list Tile) :
  mercantile_tiles b zoom = t0 :: ts ->
  (forall t img, In t (t0 :: ts) -> fetch_image zoom t = Ok img -> valid_image img) ->
  (let '(min_tx, min_ty, mosaic_w, mosaic_h) := mosaic_extent t0 ts in
   forall tx ty,
     0 <= (tx - min_tx) * TILE_SIZE < mosaic_w ->
     0 <= (ty - min_ty) * TILE_SIZE < mosaic_h ->
     In (MkTile tx ty) (t0 :: ts)) ->
  match build_elevation_mosaic mercantile_tiles fetch_image b zoom with
  | Ok (elev, _, _) =>
      forall i j, 0 <= i < rows elev -> 0 <= j < cols elev ->
                  is_finite (cell elev i j) = true
  | Raise _ => True
  end.
Proof.
  intros Et Hvalid Hgrid.
  unfold build_elevation_mosaic. rewrite Et.
  pose proof (@mosaic_extent_sides t0 ts) as Hext.
  assert (Ha : forall mosaic, assemble_mosaic fetch_image zoom t0 ts = Ok mosaic ->
            let '(min_tx, min_ty, mosaic_w, mosaic_h) := mosaic_extent t0 ts in
            rows mosaic = mosaic_h /\ cols mosaic = mosaic_w /\
            forall i j,
              (exists t img, In t (t0 :: ts) /\
                 in_block ((tile_y t - min_ty) * TILE_SIZE)
                          ((tile_x t - min_tx) * TILE_SIZE) i j = true /\
                 fetch_image zoom t = Ok img /\
                 cell mosaic i j
                 = cell (decode_terrarium img) (i - (tile_y t - min_ty) * TILE_SIZE)
                                               (j - (tile_x t - min_tx) * TILE_SIZE)) \/
              (forall t, In t (t0 :: ts) ->
                 in_block ((tile_y t - min_ty) * TILE_SIZE)
                          ((tile_x t - min_tx) * TILE_SIZE) i j = false)).
  { unfold assemble_mosaic.
    destruct (mosaic_extent t0 ts) as [[[min_tx min_ty] mosaic_w] mosaic_h].
    intros mosaic H.
    destruct (@foldM_placed fetch_image zoom min_tx min_ty _ _ _ H) as (R1 & C1 & _).
    split; [exact R1|]. split; [exact C1|]. intros i j.
    destruct (@foldM_cells fetch_image zoom min_tx min_ty _ _ _ H i j)
      as [(t & img & Hin & Hb & Hf & Hc)|[Hno _]].
    - left. exists t, img. repeat split; assumption.
    - right. exact Hno. }
  destruct (mosaic_extent t0 ts) as [[[min_tx min_ty] mosaic_w] mosaic_h].
  destruct Hext as (nx & ny & Hnx & Hny & Hw & Hh).
  destruct (assemble_mosaic fetch_image zoom t0 ts) as [mosaic|e]; cbn [Py.bind];
    [|exact I].
  destruct (Ha mosaic eq_refl) as (Hrows & Hcols & Hcells).
  destruct (crop_window b zoom mosaic_w mosaic_h (min_tx * TILE_SIZE) (min_ty * TILE_SIZE))
    as [[[[c_left c_top] c_right] c_bottom]|e]; cbn [Py.bind]; [|exact I].
  cbn [crop rows cols cell]. rewrite Hrows, Hcols. intros i j Hi Hj.
  unfold TILE_SIZE in *.
  apply slice_window in Hi; [|lia]. apply slice_window in Hj; [|lia].
  set (ii := i + slice_bound mosaic_h c_top) in *.
  set (jj := j + slice_bound mosaic_w c_left) in *.
  pose proof (Z.div_mod ii 256 ltac:(lia)) as Di.
  pose proof (Z.mod_pos_bound ii 256 ltac:(lia)) as Mi.
  pose proof (Z.div_mod jj 256 ltac:(lia)) as Dj.
  pose proof (Z.mod_pos_bound jj 256 ltac:(lia)) as Mj.
  assert (Hin : In (MkTile (min_tx + jj / 256) (min_ty + ii / 256)) (t0 :: ts))
    by (apply Hgrid; lia).
  destruct (Hcells ii jj) as [(t & img & Hint & Hb & Hf & Hc)|Hno].
  - rewrite Hc. cbn [decode_terrarium cell].
    destruct (Hvalid t img Hint Hf
                (ii - (tile_y t - min_ty) * 256) (jj - (tile_x t - min_tx) * 256))
      as (Vr & Vg & Vb).
    apply (decode_pixel_value Vr Vg Vb).
  - specialize (Hno _ Hin). cbn [tile_x tile_y] in Hno.
    pose proof (in_block_of_cell min_tx min_ty ii jj) as Hb.
    unfold TILE_SIZE in Hb. congruence.
Qed.

Lemma build_elevation_mosaic_finite_example :
  let tiles_of := fun (_ : bbox) (_ : Z) => [MkTile 0 0] in
  exists elev box origin,
    build_elevation_mosaic tiles_of fetch_column_0 (0, 0, 90, 30)%R 0
    = Ok (elev, box, origin) /\
    forall i j, 0 <= i < rows elev -> 0 <= j < cols elev ->
                is_finite (cell elev i j) = true.
Proof.
  intros tiles_of.
  pose proof (@build_elevation_mosaic_finite tiles_of fetch_column_0 (0, 0, 90, 30)%R 0
                (MkTile 0 0) [] eq_refl) as H.
  destruct (@crop_window_never_empty (0, 0, 90, 30)%R 0 256 256 0 0
              sample_bbox_valid sample_bbox_covered)
    as (l & t & r & bt & Ew & _).
  assert (Eb : build_elevation_mosaic tiles_of fetch_column_0 (0, 0, 90, 30)%R 0
               = Ok (crop {| rows := 256; cols := 256;
                             cell := fun i j =>
                               if in_block 0 0 i j
                               then cell (decode_terrarium flat_image) (i - 0) (j - 0)
                               else S754_nan |} t bt l r,
                     (l, t, r, bt), (0, 0))).
  { unfold build_elevation_mosaic. cbn [tiles_of].
    change (crop_window (0, 0, 90, 30)%R 0 256 256 0 0 = Ok (l, t, r, bt)) in Ew.
    cbn -[crop_window crop decode_terrarium in_block]. rewrite Ew. reflexivity. }
  rewrite Eb in H.
  eexists; eexists; eexists. split; [exact Eb|].
  apply H.
  - intros t' img [<-|[]] Hf. injection Hf as <-.
    intros i j. unfold channel. cbn. lia.
  - unfold mosaic_extent, min_of, max_of, TILE_SIZE. cbn [map fold_left tile_x tile_y].
    intros tx ty Hx Hy. left. f_equal; lia.
Defined.


(** ** The command line checks less than the web forms *)

Lemma SFltb_true_not_nan (a b : spec_float) :
  SFltb a b = true -> is_nan a = false /\ is_nan b = false.
Proof.
  unfold SFltb, SFcompare.
  destruct a as [sa|sa| |sa ma ea]; destruct b as [sb|sb| |sb mb eb];
    try discriminate; intros _; split; reflexivity.
Qed.

(** X24.  Every bounding box the web forms accept, the command line accepts too.
    The command line checks the count, the floats and [min < max] only: a
    box it accepts holds no NaN, but it may lie outside the longitude and
    latitude limits of the web forms, which are the only reasons for the web
    forms to reject it. *)
Theorem main_bbox_weaker (py_strip : string -> string)
    (py_float : string -> option spec_float) (bbox_str : string) :
  (forall b, validate_bbox py_strip py_float bbox_str = Accepted b ->
             main_bbox py_strip py_float bbox_str = CliBox b) /\
  (forall b, main_bbox py_strip py_float bbox_str = CliBox b ->
             validate_bbox py_strip py_float bbox_str = Accepted b \/
             validate_bbox py_strip py_float bbox_str = ValueError LongitudeOutOfRange \/
             validate_bbox py_strip py_float bbox_str = ValueError LatitudeOutOfRange) /\
  (forall min_lon min_lat max_lon max_lat,
      main_bbox py_strip py_float bbox_str = CliBox (min_lon, min_lat, max_lon, max_lat) ->
      SFltb min_lon max_lon = true /\ SFltb min_lat max_lat = true /\
      is_nan min_lon = false /\ is_nan min_lat = false /\
      is_nan max_lon = false /\ is_nan max_lat = false).
Proof.
  unfold validate_bbox, main_bbox.
  destruct (parse_parts py_strip py_float (split_comma bbox_str))
    as [[|a [|b [|c [|d [|x xs]]]]]|];
    try (repeat split; intros; discriminate).
  destruct (SFltb a c) eqn:E1; destruct (SFltb b d) eqn:E2; cbn [negb andb];
    try (repeat split; intros; discriminate).
  split; [|split].
  - intros box.
    destruct (between (-180) 180 a && between (-180) 180 c); cbn [negb];
      [|discriminate].
    destruct (between (-85) 85 b && between (-85) 85 d); cbn [negb];
      [|discriminate].
    intros H. injection H as <-. reflexivity.
  - intros box H. injection H as <-.
    destruct (between (-180) 180 a && between (-180) 180 c); cbn [negb];
      [|right; left; reflexivity].
    destruct (between (-85) 85 b && between (-85) 85 d); cbn [negb];
      [left; reflexivity | right; right; reflexivity].
  - intros min_lon min_lat max_lon max_lat H. injection H as <- <- <- <-.
    destruct (SFltb_true_not_nan _ _ E1). destruct (SFltb_true_not_nan _ _ E2).
    repeat split; assumption.
Qed.

Lemma main_bbox_weaker_example :
  main_bbox (fun s => s) float_of_digits "0,0,1,89"
  = CliBox (F64.of_Z 0, F64.of_Z 0, F64.of_Z 1, F64.of_Z 89) /\
  validate_bbox (fun s => s) float_of_digits "0,0,1,89" = ValueError LatitudeOutOfRange /\
  (SFltb (F64.of_Z 0) (F64.of_Z 1) = true /\ SFltb (F64.of_Z 0) (F64.of_Z 89) = true /\
   is_nan (F64.of_Z 0) = false /\ is_nan (F64.of_Z 0) = false /\
   is_nan (F64.of_Z 1) = false /\ is_nan (F64.of_Z 89) = false).
Proof.
  split; [vm_compute; reflexivity|]. split; [vm_compute; reflexivity|].
  apply (proj2 (proj2 (@main_bbox_weaker (fun s => s) float_of_digits "0,0,1,89"))).
  vm_compute. reflexivity.
Defined.


(** ** The web forms: from the purchase to the credits *)

Section PurchaseProofs.

Variable stripe_status : string -> option string.
Variable stripe_create : Z -> Z -> Z -> option string.

Lemma price_of_some (credits price : Z) :
  price_of credits = Some price -> In (credits, price) CREDIT_PRICES /\ price = 200 * credits.
Proof.
  unfold price_of, CREDIT_PRICES. cbn [find fst snd].
  repeat match goal with
         | |- context [?a =? credits] => destruct (Z.eqb_spec a credits) as [<-|_]
         end; cbn [option_map]; intros H; try discriminate;
    injection H as <-; (split; [simpl; tauto | reflexivity]).
Qed.

Lemma first_transaction_new (payment_intent_id : string) (user_id : Z)
    (transactions : list transaction) (row : transaction) :
  (forall t, In t transactions -> t_intent t <> payment_intent_id) ->
  first_transaction payment_intent_id user_id (transactions ++ [row])
  = if (t_intent row =? payment_intent_id)%string && (t_user row =? user_id)
    then Some row else None.
Proof.
  unfold first_transaction. intros Hfresh.
  induction transactions as [|t l IH]; [reflexivity|].
  cbn [app find].
  destruct (String.eqb_spec (t_intent t) payment_intent_id) as [E|_].
  - exfalso. apply (Hfresh t); [left; reflexivity | exact E].
  - cbn [andb]. apply IH. intros t' Hin. apply Hfresh. right. exact Hin.
Qed.

(** X25.  From the purchase to the credits.  A purchase that reaches the checkout
    page is for a package of [CREDIT_PRICES] at 200 cents a credit and adds
    one pending transaction.  When the payment service then reports the
    payment as succeeded, [payment_success] adds exactly the credits of the
    package to the buyer, once: a second visit changes nothing, and another
    user who presents the same payment gets nothing. *)
Theorem purchase_then_payment (credit_package user_id credits : Z)
    (transactions transactions1 : list transaction)
    (intent_id : string) (shown_credits price : Z) :
  purchase_credits stripe_create credit_package user_id transactions
  = (Some (intent_id, shown_credits, price), transactions1) ->
  intent_id <> ""%string ->
  (forall t, In t transactions -> t_intent t <> intent_id) ->
  stripe_status intent_id = Some "succeeded"%string ->
  In (credit_package, price) CREDIT_PRICES /\
  shown_credits = credit_package /\ price = 200 * credit_package /\
  List.length transactions1 = S (List.length transactions) /\
  (exists transactions2,
      payment_success stripe_status (Some intent_id) user_id credits transactions1
      = (credits + credit_package, transactions2) /\
      payment_success stripe_status (Some intent_id) user_id
        (credits + credit_package) transactions2
      = (credits + credit_package, transactions2)) /\
  (forall other_user other_credits,
      other_user <> user_id ->
      payment_success stripe_status (Some intent_id) other_user other_credits transactions1
      = (other_credits, transactions1)).
Proof.
  unfold purchase_credits. intros Hp Hne Hfresh Hs.
  destruct (price_of credit_package) as [price'|] eqn:Eprice; [|discriminate].
  destruct (stripe_create price' user_id credit_package) as [id|]; [|discriminate].
  injection Hp as -> <- -> <-.
  destruct (price_of_some _ Eprice) as [Hin Hprice].
  split; [exact Hin|]. split; [reflexivity|]. split; [exact Hprice|].
  split; [rewrite length_app; cbn [List.length]; lia|].
  set (row := Transaction (next_id transactions) user_id intent_id credit_package price
                          "pending") in *.
  assert (Hfirst : forall u,
            first_transaction intent_id u (transactions ++ [row])
            = if u =? user_id then Some row else None).
  { intros u. rewrite first_transaction_new by exact Hfresh.
    cbn [row t_intent t_user]. rewrite String.eqb_refl. cbn [andb].
    rewrite (Z.eqb_sym user_id u). reflexivity. }
  split.
  - unfold payment_success.
    destruct (String.eqb_spec intent_id "") as [E|_]; [contradiction|].
    rewrite Hfirst, Z.eqb_refl. cbn [row t_status t_credits].
    cbn [String.eqb Ascii.eqb Bool.eqb]. rewrite Hs.
    cbn [String.eqb Ascii.eqb Bool.eqb].
    eexists. split; [reflexivity|].
    destruct (@first_transaction_complete intent_id user_id row (transactions ++ [row]))
      as (row' & Ef' & Ec).
    { rewrite Hfirst, Z.eqb_refl. reflexivity. }
    fold row. rewrite Ef', Ec. reflexivity.
  - intros other_user other_credits Hother. unfold payment_success.
    destruct (String.eqb_spec intent_id "") as [E|_]; [contradiction|].
    rewrite Hfirst. destruct (Z.eqb_spec other_user user_id); [contradiction|].
    reflexivity.
Qed.

End PurchaseProofs.

Lemma purchase_then_payment_example :
  let stripe_status := fun _ : string => Some "succeeded"%string in
  let stripe_create := fun _ _ _ : Z => Some "pi_1"%string in
  let row := Transaction 1 7 "pi_1" 5 1000 "pending" in
  purchase_credits stripe_create 5 7 [] = (Some ("pi_1"%string, 5, 1000), [row]) /\
  In (5, 1000) CREDIT_PRICES /\
  5 = 5 /\ 1000 = 200 * 5 /\
  List.length [row] = S (List.length (@nil transaction)) /\
  (exists transactions2,
      payment_success stripe_status (Some "pi_1"%string) 7 0 [row]
      = (0 + 5, transactions2) /\
      payment_success stripe_status (Some "pi_1"%string) 7 (0 + 5) transactions2
      = (0 + 5, transactions2)) /\
  (forall other_user other_credits,
      other_user <> 7 ->
      payment_success stripe_status (Some "pi_1"%string) other_user other_credits [row]
      = (other_credits, [row])).
Proof.
  intros stripe_status stripe_create row.
  split; [reflexivity|].
  apply (@purchase_then_payment stripe_status stripe_create 5 7 0 [] [row]
           "pi_1"%string 5 1000).
  - reflexivity.
  - discriminate.
  - intros t [].
  - reflexivity.
Defined.
